(** * A chess program: material evaluation, alpha-beta search and game loop

    Verification development for [chess_game.py].  The program plays chess
    against a human: [evaluate_board] scores material, [minimax] and
    [get_best_move] search the game tree with alpha-beta pruning, and [main]
    runs the frame loop that turns mouse clicks into moves and lets the
    engine answer.

    The rules of chess come from the library the program imports
    ([import chess], python-chess).  Its board object is modelled in
    [Module Chess]: the piece placement, the side to move, the move stack and
    the stack of saved states that [push] and [pop] maintain.  The parts of
    the library that decide the rules (move generation, the effect of a move
    on the placement, the automatic draws) are the fields of the class
    [Rules]; the program is embedded over an arbitrary instance, and
    [Module PythonChess] gives the instance that follows the library for
    standard chess. *)

From Stdlib Require Import ZArith List Bool Lia Arith PeanoNat.
Import ListNotations.

Set Implicit Arguments.

(** ** The board object of the rules library *)

Module Chess.

Inductive Color := WHITE | BLACK.

Inductive PieceType := PAWN | KNIGHT | BISHOP | ROOK | QUEEN | KING.

(** Squares are the integers 0..63, a1 = 0, b1 = 1, ..., h8 = 63. *)
Definition Square := nat.

Record Piece := mkPiece { piece_type : PieceType; color : Color }.

(** [chess.Move(from_square, to_square, promotion=None)]. *)
Record Move := mkMove {
  from_square : Square;
  to_square : Square;
  promotion : option PieceType
}.

Definition opposite (c : Color) : Color :=
  match c with WHITE => BLACK | BLACK => WHITE end.

Definition color_eqb (a b : Color) : bool :=
  match a, b with
  | WHITE, WHITE | BLACK, BLACK => true
  | _, _ => false
  end.

Definition piece_type_eqb (a b : PieceType) : bool :=
  match a, b with
  | PAWN, PAWN | KNIGHT, KNIGHT | BISHOP, BISHOP
  | ROOK, ROOK | QUEEN, QUEEN | KING, KING => true
  | _, _ => false
  end.

Definition piece_eqb (p q : Piece) : bool :=
  piece_type_eqb (piece_type p) (piece_type q) && color_eqb (color p) (color q).

Definition promotion_eqb (a b : option PieceType) : bool :=
  match a, b with
  | None, None => true
  | Some x, Some y => piece_type_eqb x y
  | _, _ => false
  end.

(** Equality of moves compares the three fields, as the library's dataclass
    does. *)
Definition move_eqb (m n : Move) : bool :=
  Nat.eqb (from_square m) (from_square n)
  && Nat.eqb (to_square m) (to_square n)
  && promotion_eqb (promotion m) (promotion n).

Definition square_file (s : Square) : nat := s mod 8.
Definition square_rank (s : Square) : nat := s / 8.
Definition square (file_index rank_index : nat) : Square :=
  rank_index * 8 + file_index.

(** What [pop] restores: everything [push] may change apart from the two
    stacks.  [placement] lists the 64 squares from a1 to h8;
    [castling_rights] lists the rook squares that still carry a right. *)
Record BoardState := mkState {
  placement : list (option Piece);
  turn : Color;
  castling_rights : list Square;
  ep_square : option Square;
  halfmove_clock : nat;
  fullmove_number : nat
}.

(** The board object.  The heads of [move_stack] and [saved] are the most
    recent entries; the library keeps them in lock step. *)
Record Board := mkBoard {
  state : BoardState;
  move_stack : list Move;
  saved : list BoardState
}.

Definition board_turn (b : Board) : Color := turn (state b).

(** [board.piece_at(square)] for a square of the board, 0..63.  (Past 63
    the library's tables of 64 entries raise IndexError.) *)
Definition piece_at (b : Board) (s : Square) : option Piece :=
  nth s (placement (state b)) None.

Definition holds (pt : PieceType) (c : Color) (o : option Piece) : bool :=
  match o with
  | Some p => piece_eqb p (mkPiece pt c)
  | None => false
  end.

(** Squares of [l], numbered from [s], that satisfy [f]. *)
Fixpoint squares_where (f : option Piece -> bool) (s : Square)
    (l : list (option Piece)) : list Square :=
  match l with
  | [] => []
  | o :: l' => if f o then s :: squares_where f (S s) l'
               else squares_where f (S s) l'
  end.

(** [board.pieces(piece_type, color)]: the set of squares holding that
    piece, here in ascending order. *)
Definition pieces (b : Board) (pt : PieceType) (c : Color) : list Square :=
  squares_where (holds pt c) 0 (placement (state b)).

(** The same placement with the other side to move. *)
Definition with_turn (b : Board) (c : Color) : Board :=
  let st := state b in
  mkBoard (mkState (placement st) c (castling_rights st) (ep_square st)
                   (halfmove_clock st) (fullmove_number st))
          (move_stack b) (saved b).

(** [chess.Board()]: the standard initial position, nothing pushed. *)
Definition initial_board : Board :=
  let back := [ROOK; KNIGHT; BISHOP; QUEEN; KING; BISHOP; KNIGHT; ROOK] in
  let rank_of_pieces (c : Color) (l : list PieceType) :=
    map (fun pt => Some (mkPiece pt c)) l in
  mkBoard
    (mkState
       (rank_of_pieces WHITE back ++ rank_of_pieces WHITE (repeat PAWN 8)
        ++ repeat None 32
        ++ rank_of_pieces BLACK (repeat PAWN 8) ++ rank_of_pieces BLACK back)
       WHITE [0; 7; 56; 63] None 0 1)
    [] [].

(** The rules the program obtains from the library.  [play b m] is the
    state after move [m] (placement, side to move, rights and clocks) and
    [recorded b m] the move as the library writes it on the move stack;
    [generate_legal_moves] is the enumeration behind iterating
    [board.legal_moves], in the library's order, and [is_legal] the test
    behind [move in board.legal_moves]; [automatic_draw] collects the ends of
    the game that do not depend on the moves available (insufficient
    material, the seventy-five-move rule, fivefold repetition). *)
Class Rules := {
  play : Board -> Move -> BoardState;
  recorded : Board -> Move -> Move;
  generate_legal_moves : Board -> list Move;
  is_legal : Board -> Move -> bool;
  automatic_draw : Board -> bool
}.

Section BoardOperations.
Context {R : Rules}.

(** [board.push(move)]: save the state, record the move, play it. *)
Definition push (b : Board) (m : Move) : Board :=
  mkBoard (play b m) (recorded b m :: move_stack b) (state b :: saved b).

(** [board.pop()]: restore the most recent saved state.  On an empty move
    stack the library raises IndexError, here [None]. *)
Definition pop (b : Board) : option Board :=
  match move_stack b, saved b with
  | _ :: ms, st :: ss => Some (mkBoard st ms ss)
  | _, _ => None
  end.

(** [board.legal_moves], iterated. *)
Definition legal_moves (b : Board) : list Move := generate_legal_moves b.

(** [board.is_game_over()]: checkmate and stalemate are the two cases of
    having no legal move; the other ends are the automatic draws. *)
Definition is_game_over (b : Board) : bool :=
  match legal_moves b with
  | [] => true
  | _ :: _ => automatic_draw b
  end.

End BoardOperations.

End Chess.

Import Chess.

(** ** Numbers, exceptions and the program's effects *)

(** The values the search compares: a Python [int], or one of the floats
    [-math.inf] and [math.inf].  No other float occurs, so every comparison
    the program makes is exact. *)
Inductive Number := NegInf | Int (z : Z) | PosInf.

(** [a < b] *)
Definition lt (a b : Number) : bool :=
  match a, b with
  | NegInf, NegInf => false
  | NegInf, _ => true
  | Int x, Int y => (x <? y)%Z
  | Int _, PosInf => true
  | Int _, NegInf => false
  | PosInf, _ => false
  end.

(** [a > b] *)
Definition gt (a b : Number) : bool := lt b a.

(** [a <= b] *)
Definition le (a b : Number) : bool := negb (lt b a).

Inductive Exception := RecursionError | OverflowError | IndexError.

Inductive Result (A : Type) :=
| Ok (a : A)
| Raise (e : Exception).
Arguments Raise {A} e.

(** A computation on the one board object the program shares: it returns or
    raises, and leaves the board in some state either way. *)
Definition M (A : Type) : Type := Board -> Result A * Board.

Definition ret {A} (a : A) : M A := fun board => (Ok a, board).

Definition raise {A} (e : Exception) : M A := fun board => (Raise e, board).

Definition bind {A B} (c : M A) (k : A -> M B) : M B :=
  fun board =>
    match c board with
    | (Ok a, board') => k a board'
    | (Raise e, board') => (Raise e, board')
    end.

(** Reading the board without changing it. *)
Definition ask {A} (f : Board -> A) : M A := fun board => (Ok (f board), board).

Declare Scope py_scope.
Delimit Scope py_scope with py.
Notation "x <- c ;; k" := (bind c (fun x => k))
  (at level 100, c at next level, right associativity) : py_scope.
Notation "c ;; k" := (bind c (fun _ => k))
  (at level 100, right associativity) : py_scope.

(** [int(x)]: raises OverflowError on an infinity. *)
Definition to_int (x : Number) : M Z :=
  match x with
  | Int z => ret z
  | NegInf | PosInf => raise OverflowError
  end.

(** ** The program *)

Section Program.
Context {R : Rules}.
Local Open Scope py_scope.

Definition board_push (move : Move) : M unit :=
  fun board => (Ok tt, push board move).

Definition board_pop : M unit :=
  fun board =>
    match pop board with
    | Some board' => (Ok tt, board')
    | None => (Raise IndexError, board)
    end.

Definition PIECE_VALUES : list (PieceType * Z) :=
  [ (PAWN, 100); (KNIGHT, 320); (BISHOP, 330);
    (ROOK, 500); (QUEEN, 900); (KING, 20000) ]%Z.

Definition len {A} (l : list A) : Z := Z.of_nat (length l).

(** [evaluate_board], lines 28-36. *)
Definition evaluate_board (board : Board) : Z :=
  let score :=
    fold_left
      (fun score '(piece_type, value) =>
         score + value * (len (pieces board piece_type WHITE)
                          - len (pieces board piece_type BLACK)))%Z
      PIECE_VALUES 0%Z in
  match board_turn board with
  | WHITE => score
  | BLACK => (- score)%Z
  end.

(** The loop of the maximizing branch, lines 45-54.  [child alpha beta] is
    the recursive call on the board after the move; the moves are those the
    iterator yields, which it computes from the board as it stands when the
    loop resumes it, the board every iteration restores.  Leaving the loop
    early is [break]. *)
Fixpoint max_loop (child : Number -> Number -> M Z) (moves : list Move)
    (max_eval alpha beta : Number) : M Number :=
  match moves with
  | [] => ret max_eval
  | move :: rest =>
      board_push move ;;
      eval_score <- child alpha beta ;;
      board_pop ;;
      let max_eval := if gt (Int eval_score) max_eval
                      then Int eval_score else max_eval in
      let alpha := if gt (Int eval_score) alpha
                   then Int eval_score else alpha in
      if le beta alpha then ret max_eval
      else max_loop child rest max_eval alpha beta
  end.

(** The loop of the minimizing branch, lines 58-67. *)
Fixpoint min_loop (child : Number -> Number -> M Z) (moves : list Move)
    (min_eval alpha beta : Number) : M Number :=
  match moves with
  | [] => ret min_eval
  | move :: rest =>
      board_push move ;;
      eval_score <- child alpha beta ;;
      board_pop ;;
      let min_eval := if lt (Int eval_score) min_eval
                      then Int eval_score else min_eval in
      let beta := if lt (Int eval_score) beta
                  then Int eval_score else beta in
      if le beta alpha then ret min_eval
      else min_loop child rest min_eval alpha beta
  end.

(** [minimax], lines 39-68.  [fuel] is the number of nested calls the
    interpreter still allows; running out of it is RecursionError.  The test
    of line 40 is an [or]: the board is asked only when [depth] is not 0. *)
Fixpoint minimax (fuel : nat) (depth : Z) (alpha beta : Number)
    (maximizing : bool) : M Z :=
  match fuel with
  | O => raise RecursionError
  | S fuel' =>
      stop <- ask (fun board =>
                     if (depth =? 0)%Z then true else is_game_over board) ;;
      if stop then ask evaluate_board
      else if maximizing then
        moves <- ask legal_moves ;;
        max_eval <- max_loop
                      (fun alpha beta =>
                         minimax fuel' (depth - 1) alpha beta false)
                      moves NegInf alpha beta ;;
        to_int max_eval
      else
        moves <- ask legal_moves ;;
        min_eval <- min_loop
                      (fun alpha beta =>
                         minimax fuel' (depth - 1) alpha beta true)
                      moves PosInf alpha beta ;;
        to_int min_eval
  end.

(** The loop of [get_best_move], lines 74-80. *)
Fixpoint best_move_loop (child : M Z) (moves : list Move)
    (best_move : option Move) (best_value : Number) : M (option Move) :=
  match moves with
  | [] => ret best_move
  | move :: rest =>
      board_push move ;;
      value <- child ;;
      board_pop ;;
      if gt (Int value) best_value
      then best_move_loop child rest (Some move) (Int value)
      else best_move_loop child rest best_move best_value
  end.

(** [get_best_move], lines 71-81. *)
Definition get_best_move (fuel : nat) (depth : Z) : M (option Move) :=
  moves <- ask legal_moves ;;
  best_move_loop (minimax fuel (depth - 1) NegInf PosInf false)
                 moves None NegInf.


(** *** The game loop *)

(** What [pygame.event.get()] delivers.  A click carries the pointer
    position in pixels that [pygame.mouse.get_pos()] gives when the event is
    handled; the window is [WIDTH] by [HEIGHT]. *)
Inductive Event :=
| QUIT
| MOUSEBUTTONDOWN (x y : Z)
| OTHER.

Definition WIDTH : Z := 640.
Definition HEIGHT : Z := 640.
Definition SQ_SIZE : Z := WIDTH / 8.

Definition player_color : Color := WHITE.
Definition ai_depth : Z := 2.

(** Nested calls the interpreter allows by default. *)
Definition recursion_limit : nat := 1000.

(** The local variables of [main] that outlive a frame. *)
Record Session := mkSession {
  board : Board;
  running : bool;
  selected_square : option Square
}.

(** The square under the pointer, lines 151-154; [chess.square(col, row)]
    is [row * 8 + col].  With the pointer inside the window this is a square
    of the board.  The program does not check that it is: with the pointer
    outside the window its number can leave 0..63, and the library then
    raises IndexError (past 63) or reads its tables from their end (below
    0).  The click handling below follows the program for pointers inside
    the window, and what is proved about clicks is stated for those. *)
Definition clicked_square (x y : Z) : Square :=
  let col := (x / SQ_SIZE)%Z in
  let row := (7 - y / SQ_SIZE)%Z in
  Z.to_nat (row * 8 + col).

(** The body of the click branch, lines 150-164, for a pointer inside the
    window and a pending origin on the board. *)
Definition on_click (x y : Z) (s : Session) : Session :=
  let square := clicked_square x y in
  match selected_square s with
  | None =>
      match piece_at (board s) square with
      | Some piece =>
          if color_eqb (color piece) player_color
          then mkSession (board s) (running s) (Some square)
          else s
      | None => s
      end
  | Some origin =>
      let move := mkMove origin square None in
      if is_legal (board s) move
      then mkSession (push (board s) move) (running s) None
      else mkSession (board s) (running s) None
  end.

(** The event loop of a frame, lines 145-164; QUIT leaves it. *)
Fixpoint handle_events (events : list Event) (s : Session) : Session :=
  match events with
  | [] => s
  | QUIT :: _ => mkSession (board s) false (selected_square s)
  | MOUSEBUTTONDOWN x y :: rest =>
      if color_eqb (board_turn (board s)) player_color
      then handle_events rest (on_click x y s)
      else handle_events rest s
  | OTHER :: rest => handle_events rest s
  end.

(** The engine's part of a frame, lines 167-172.  The second component
    lists the boards [get_best_move] was called on. *)
Definition ai_move (s : Session) : Result Session * list Board :=
  if negb (color_eqb (board_turn (board s)) player_color)
     && negb (is_game_over (board s))
  then
    match get_best_move recursion_limit ai_depth (board s) with
    | (Ok (Some move), board') =>
        (Ok (mkSession (push board' move) (running s) (selected_square s)),
         [board s])
    | (Ok None, board') =>
        (Ok (mkSession board' (running s) (selected_square s)), [board s])
    | (Raise e, _) => (Raise e, [board s])
    end
  else (Ok s, []).

(** End detection, lines 190-194. *)
Definition end_detection (s : Session) : Session :=
  if is_game_over (board s)
  then mkSession (board s) false (selected_square s)
  else s.

(** One iteration of [while running], lines 144-196, without the drawing:
    the session after the frame, unless the search raised, and the boards
    searched. *)
Definition frame (events : list Event) (s : Session)
  : Result Session * list Board :=
  match ai_move (handle_events events s) with
  | (Ok s', searched) => (Ok (end_detection s'), searched)
  | (Raise e, searched) => (Raise e, searched)
  end.

(** *** Drawing *)

(** What the program asks of the display, in the order it asks:
    [pygame.draw.rect(screen, color, rect)], the same with a line width, and
    [screen.blit] of a piece's glyph rendered in a colour and centred on a
    point. *)
Definition RGB : Type := (Z * Z * Z)%type.

Definition LIGHT : RGB := (240, 217, 181)%Z.
Definition DARK : RGB := (181, 136, 99)%Z.
Definition HIGHLIGHT : RGB := (246, 246, 105)%Z.
Definition LAST_MOVE : RGB := (186, 202, 68)%Z.

(** [pygame.Rect(left, top, width, height)] *)
Record Rect := mkRect { left : Z; top : Z; width : Z; height : Z }.

Inductive Drawing :=
| FillRect (fill : RGB) (rect : Rect)
| OutlineRect (fill : RGB) (rect : Rect) (line_width : Z)
| Blit (glyph : Piece) (fill : RGB) (center : Z * Z).

(** [range(8)] *)
Definition range8 : list Z := [0; 1; 2; 3; 4; 5; 6; 7]%Z.

(** [draw_board], lines 86-94. *)
Definition draw_board : list Drawing :=
  let colors := [LIGHT; DARK] in
  flat_map
    (fun r =>
       map (fun c =>
              FillRect (nth (Z.to_nat ((r + c) mod 2)) colors LIGHT)
                       (mkRect (c * SQ_SIZE) (r * SQ_SIZE) SQ_SIZE SQ_SIZE)%Z)
           range8)
    range8.

(** The rectangle of a square on the screen, as lines 102-108 and 178-183
    compute it: the file from the left, the rank from the bottom. *)
Definition square_rect (square : Square) : Rect :=
  let file := Z.of_nat (square_file square) in
  let rank := (7 - Z.of_nat (square_rank square))%Z in
  mkRect (file * SQ_SIZE) (rank * SQ_SIZE) SQ_SIZE SQ_SIZE.

(** [draw_last_move], lines 97-108; [board.peek()] is the top of the move
    stack. *)
Definition draw_last_move (board : Board) : list Drawing :=
  match move_stack board with
  | [] => []
  | last :: _ =>
      map (fun square => FillRect LAST_MOVE (square_rect square))
          [from_square last; to_square last]
  end.

(** [draw_pieces], lines 111-123; the glyph is the piece's Unicode
    symbol. *)
Definition draw_pieces (board : Board) : list Drawing :=
  flat_map
    (fun r =>
       flat_map
         (fun c =>
            let square := Z.to_nat ((7 - r) * 8 + c) in
            match piece_at board square with
            | None => []
            | Some piece =>
                let fill := match color piece with
                            | BLACK => (10, 10, 10)%Z
                            | WHITE => (245, 245, 245)%Z
                            end in
                [Blit piece fill
                      (c * SQ_SIZE + SQ_SIZE / 2, r * SQ_SIZE + SQ_SIZE / 2)%Z]
            end)
         range8)
    range8.

(** The drawing part of a frame, lines 174-187. *)
Definition draw (s : Session) : list Drawing :=
  draw_board
  ++ draw_last_move (board s)
  ++ match selected_square s with
     | Some square => [OutlineRect HIGHLIGHT (square_rect square) 5]
     | None => []
     end
  ++ draw_pieces (board s).

(** [main], lines 128-199: the session as lines 138-142 set it up, then
    one frame for each batch of events while [running] holds.  The result
    is the session the loop stops in, unless the search raised, and the
    boards searched on the way. *)
Fixpoint run (frames : list (list Event)) (s : Session)
  : Result Session * list Board :=
  match frames with
  | [] => (Ok s, [])
  | events :: rest =>
      if running s then
        match frame events s with
        | (Ok s', searched) =>
            let (r, later) := run rest s' in (r, searched ++ later)
        | (Raise e, searched) => (Raise e, searched)
        end
      else (Ok s, [])
  end.

Definition main (frames : list (list Event)) : Result Session * list Board :=
  run frames (mkSession initial_board true None).

(** ** Notions of the specification *)

(** The larger and the smaller of two numbers, as the loops update their
    running values. *)
Definition nmax (a b : Number) : Number := if lt a b then b else a.
Definition nmin (a b : Number) : Number := if lt b a then b else a.

Definition int_of (x : Number) : Z :=
  match x with Int z => z | NegInf | PosInf => 0%Z end.

(** The exhaustive minimax value of a position searched [depth] plies deep:
    the evaluation at depth 0 and at the end of the game, otherwise the
    largest (when maximizing) or smallest value of the positions after each
    legal move. *)
Fixpoint exhaustive_value (depth : nat) (maximizing : bool) (b : Board) : Z :=
  match depth with
  | O => evaluate_board b
  | S depth' =>
      if is_game_over b then evaluate_board b
      else
        let children :=
          map (fun m => exhaustive_value depth' (negb maximizing) (push b m))
              (legal_moves b) in
        int_of (if maximizing
                then fold_left (fun acc v => nmax acc (Int v)) children NegInf
                else fold_left (fun acc v => nmin acc (Int v)) children PosInf)
  end.

(** The search with the pruning exits removed: [minimax] without lines
    53-54 and 66-67, and [get_best_move] on top of it. *)
Fixpoint max_loop_exhaustive (child : Number -> Number -> M Z)
    (moves : list Move) (max_eval alpha beta : Number) : M Number :=
  match moves with
  | [] => ret max_eval
  | move :: rest =>
      board_push move ;;
      eval_score <- child alpha beta ;;
      board_pop ;;
      let max_eval := if gt (Int eval_score) max_eval
                      then Int eval_score else max_eval in
      let alpha := if gt (Int eval_score) alpha
                   then Int eval_score else alpha in
      max_loop_exhaustive child rest max_eval alpha beta
  end.

Fixpoint min_loop_exhaustive (child : Number -> Number -> M Z)
    (moves : list Move) (min_eval alpha beta : Number) : M Number :=
  match moves with
  | [] => ret min_eval
  | move :: rest =>
      board_push move ;;
      eval_score <- child alpha beta ;;
      board_pop ;;
      let min_eval := if lt (Int eval_score) min_eval
                      then Int eval_score else min_eval in
      let beta := if lt (Int eval_score) beta
                  then Int eval_score else beta in
      min_loop_exhaustive child rest min_eval alpha beta
  end.

Fixpoint minimax_exhaustive (fuel : nat) (depth : Z) (alpha beta : Number)
    (maximizing : bool) : M Z :=
  match fuel with
  | O => raise RecursionError
  | S fuel' =>
      stop <- ask (fun board =>
                     if (depth =? 0)%Z then true else is_game_over board) ;;
      if stop then ask evaluate_board
      else if maximizing then
        moves <- ask legal_moves ;;
        max_eval <- max_loop_exhaustive
                      (fun alpha beta =>
                         minimax_exhaustive fuel' (depth - 1) alpha beta false)
                      moves NegInf alpha beta ;;
        to_int max_eval
      else
        moves <- ask legal_moves ;;
        min_eval <- min_loop_exhaustive
                      (fun alpha beta =>
                         minimax_exhaustive fuel' (depth - 1) alpha beta true)
                      moves PosInf alpha beta ;;
        to_int min_eval
  end.

Definition get_best_move_exhaustive (fuel : nat) (depth : Z)
  : M (option Move) :=
  moves <- ask legal_moves ;;
  best_move_loop (minimax_exhaustive fuel (depth - 1) NegInf PosInf false)
                 moves None NegInf.

(** The value of a piece kind in [PIECE_VALUES]. *)
Definition piece_value (pt : PieceType) : Z :=
  match find (fun entry => piece_type_eqb (fst entry) pt) PIECE_VALUES with
  | Some entry => snd entry
  | None => 0%Z
  end.

(** The material of one side: the values of its pieces, square by square. *)
Definition material (b : Board) (c : Color) : Z :=
  fold_right
    (fun o total =>
       match o with
       | Some p => if color_eqb (color p) c
                   then (piece_value (piece_type p) + total)%Z
                   else total
       | None => total
       end)
    0%Z (placement (state b)).

(** The states of the session in the specification's terms. *)
Inductive Phase :=
| AwaitingHumanOriginSelection
| AwaitingHumanDestinationSelection
| EngineTurn
| Terminal.

Definition phase (s : Session) : Phase :=
  if negb (running s) || is_game_over (board s) then Terminal
  else if color_eqb (board_turn (board s)) player_color then
    match selected_square s with
    | None => AwaitingHumanOriginSelection
    | Some _ => AwaitingHumanDestinationSelection
    end
  else EngineTurn.

End Program.

(** ** The rules of the library, for standard chess

    The rules follow the library's move generator: the same candidate moves
    in the same order (pieces from the highest square down, castling, pawn
    captures, single and double advances, en passant; king moves first when
    in check), kept when they do not leave the own king attacked. *)

Module PythonChess.

(** A set of squares, as the library's 64-bit masks. *)
Definition Bitboard := Square -> bool.

Definition BB_ALL : Bitboard := fun _ => true.

(** The squares of a mask from h8 down to a1. *)
Definition scan_reversed (bb : Bitboard) : list Square :=
  filter bb (rev (seq 0 64)).

Definition any (bb : Bitboard) : bool := existsb bb (rev (seq 0 64)).

(** Highest and lowest square of a mask. *)
Definition msb (bb : Bitboard) : option Square := hd_error (scan_reversed bb).
Definition lsb (bb : Bitboard) : option Square := hd_error (rev (scan_reversed bb)).

Definition popcount (bb : Bitboard) : nat := length (scan_reversed bb).

Definition A1 : Square := 0.
Definition C1 : Square := 2.
Definition D1 : Square := 3.
Definition E1 : Square := 4.
Definition G1 : Square := 6.
Definition H1 : Square := 7.
Definition A8 : Square := 56.
Definition C8 : Square := 58.
Definition D8 : Square := 59.
Definition E8 : Square := 60.
Definition G8 : Square := 62.
Definition H8 : Square := 63.

Definition at_square (st : BoardState) (s : Square) : option Piece :=
  nth s (placement st) None.

Definition occupied (st : BoardState) : Bitboard :=
  fun s => match at_square st s with Some _ => true | None => false end.

Definition occupied_co (st : BoardState) (c : Color) : Bitboard :=
  fun s => match at_square st s with
           | Some p => color_eqb (color p) c
           | None => false
           end.

Definition of_type (st : BoardState) (pt : PieceType) : Bitboard :=
  fun s => match at_square st s with
           | Some p => piece_type_eqb (piece_type p) pt
           | None => false
           end.

Definition own (st : BoardState) (pt : PieceType) (c : Color) : Bitboard :=
  fun s => holds pt c (at_square st s).

Definition piece_type_at (st : BoardState) (s : Square) : option PieceType :=
  option_map piece_type (at_square st s).

Fixpoint set_nth {A} (n : nat) (x : A) (l : list A) : list A :=
  match l, n with
  | [], _ => []
  | _ :: l', O => x :: l'
  | y :: l', S n' => y :: set_nth n' x l'
  end.

(** *** Geometry *)

Definition file_of (s : Square) : Z := Z.of_nat (square_file s).
Definition rank_of (s : Square) : Z := Z.of_nat (square_rank s).

Definition file_distance (a b : Square) : Z := Z.abs (file_of a - file_of b).
Definition rank_distance (a b : Square) : Z := Z.abs (rank_of a - rank_of b).

Definition on_diagonal (a b : Square) : bool :=
  (file_distance a b =? rank_distance a b)%Z && (0 <? file_distance a b)%Z.

Definition on_line (a b : Square) : bool :=
  xorb (file_distance a b =? 0)%Z (rank_distance a b =? 0)%Z.

(** The squares strictly between two squares of one rank, file or
    diagonal; none otherwise. *)
Definition between (a b : Square) : list Square :=
  if on_diagonal a b || on_line a b then
    let step := (Z.sgn (rank_of b - rank_of a) * 8
                 + Z.sgn (file_of b - file_of a))%Z in
    let n := Z.to_nat (Z.max (file_distance a b) (rank_distance a b)) in
    map (fun i => Z.to_nat (Z.of_nat a + Z.of_nat i * step)) (seq 1 (n - 1))
  else [].

(** The whole rank, file or diagonal through two squares. *)
Definition ray (a b : Square) : Bitboard :=
  fun s =>
    (on_diagonal a b || on_line a b)
    && ((file_of s - file_of a) * (rank_of b - rank_of a)
        =? (rank_of s - rank_of a) * (file_of b - file_of a))%Z.

Definition pawn_attacks (c : Color) (a b : Square) : bool :=
  (rank_of b - rank_of a =? match c with WHITE => 1 | BLACK => -1 end)%Z
  && (file_distance a b =? 1)%Z.

Definition knight_attacks (a b : Square) : bool :=
  ((file_distance a b =? 1) && (rank_distance a b =? 2)
   || (file_distance a b =? 2) && (rank_distance a b =? 1))%Z.

Definition king_attacks (a b : Square) : bool :=
  (Z.max (file_distance a b) (rank_distance a b) =? 1)%Z.

Definition clear (occ : Bitboard) (a b : Square) : bool :=
  forallb (fun s => negb (occ s)) (between a b).

(** Whether piece [p] on [a] attacks [b] when the squares of [occ] block
    the sliding pieces. *)
Definition piece_attacks (occ : Bitboard) (p : Piece) (a b : Square) : bool :=
  match piece_type p with
  | PAWN => pawn_attacks (color p) a b
  | KNIGHT => knight_attacks a b
  | KING => king_attacks a b
  | BISHOP => on_diagonal a b && clear occ a b
  | ROOK => on_line a b && clear occ a b
  | QUEEN => (on_diagonal a b || on_line a b) && clear occ a b
  end.

(** [attacks_mask(square)] *)
Definition attacks_mask (st : BoardState) (a : Square) : Bitboard :=
  fun b => match at_square st a with
           | Some p => piece_attacks (occupied st) p a b
           | None => false
           end.

(** [_attackers_mask(color, square, occupied)] *)
Definition attackers_mask (st : BoardState) (occ : Bitboard) (c : Color)
    (s : Square) : Bitboard :=
  fun a => match at_square st a with
           | Some p => color_eqb (color p) c && piece_attacks occ p a s
           | None => false
           end.

Definition is_attacked_by (st : BoardState) (c : Color) (s : Square) : bool :=
  any (attackers_mask st (occupied st) c s).

(** [king(color)] *)
Definition king (st : BoardState) (c : Color) : option Square :=
  msb (own st KING c).

Definition backrank (c : Color) : nat :=
  match c with WHITE => 0 | BLACK => 7 end.

(** *** Castling rights and castling moves *)

(** [clean_castling_rights()]: once a move has been pushed the rights are
    taken as they are; before, they are kept for rooks on their corners with
    the king on its square. *)
Definition clean_castling_rights (b : Board) : list Square :=
  let st := state b in
  match saved b with
  | _ :: _ => castling_rights st
  | [] =>
      let side (c : Color) (king_square a_square h_square : Square) :=
        if own st KING c king_square
        then filter (fun s => own st ROOK c s
                              && (Nat.eqb s a_square || Nat.eqb s h_square))
                    (castling_rights st)
        else [] in
      side WHITE E1 A1 H1 ++ side BLACK E8 A8 H8
  end.

(** Castling written as the king capturing its own rook, the library's
    internal form, and back. *)
Definition to_chess960 (st : BoardState) (m : Move) : Move :=
  if Nat.eqb (from_square m) E1 && of_type st KING E1 then
    if Nat.eqb (to_square m) G1 && negb (of_type st ROOK G1)
    then mkMove E1 H1 None
    else if Nat.eqb (to_square m) C1 && negb (of_type st ROOK C1)
    then mkMove E1 A1 None
    else m
  else if Nat.eqb (from_square m) E8 && of_type st KING E8 then
    if Nat.eqb (to_square m) G8 && negb (of_type st ROOK G8)
    then mkMove E8 H8 None
    else if Nat.eqb (to_square m) C8 && negb (of_type st ROOK C8)
    then mkMove E8 A8 None
    else m
  else m.

Definition from_chess960 (st : BoardState) (m : Move) : Move :=
  match promotion m with
  | Some _ => m
  | None =>
      if Nat.eqb (from_square m) E1 && of_type st KING E1 then
        if Nat.eqb (to_square m) H1 then mkMove E1 G1 None
        else if Nat.eqb (to_square m) A1 then mkMove E1 C1 None
        else m
      else if Nat.eqb (from_square m) E8 && of_type st KING E8 then
        if Nat.eqb (to_square m) H8 then mkMove E8 G8 None
        else if Nat.eqb (to_square m) A8 then mkMove E8 C8 None
        else m
      else m
  end.

Definition attacked_for_king (st : BoardState) (path : list Square)
    (occ : Bitboard) : bool :=
  existsb (fun s => any (attackers_mask st occ (opposite (turn st)) s)) path.

(** [generate_castling_moves()] *)
Definition generate_castling_moves (b : Board)
    (from_mask to_mask : Bitboard) : list Move :=
  let st := state b in
  let us := turn st in
  match lsb (fun s => own st KING us s
                      && Nat.eqb (square_rank s) (backrank us)
                      && from_mask s) with
  | None => []
  | Some king_square =>
      flat_map
        (fun candidate =>
           let a_side := candidate <? king_square in
           let king_to := square (if a_side then 2 else 6) (backrank us) in
           let rook_to := square (if a_side then 3 else 5) (backrank us) in
           let king_path := between king_square king_to in
           let rook_path := between candidate rook_to in
           let without (l : list Square) : Bitboard :=
             fun s => occupied st s && negb (existsb (Nat.eqb s) l) in
           if existsb (without [king_square; candidate])
                      (king_path ++ rook_path ++ [king_to; rook_to])
              || attacked_for_king st (king_square :: king_path)
                                   (without [king_square])
              || attacked_for_king st [king_to]
                   (fun s => without [king_square; candidate] s
                             || Nat.eqb s rook_to)
           then []
           else [from_chess960 st (mkMove king_square candidate None)])
        (scan_reversed
           (fun s => existsb (Nat.eqb s) (clean_castling_rights b)
                     && Nat.eqb (square_rank s) (backrank us)
                     && to_mask s))
  end.

(** *** The effect of a move *)

(** [is_zeroing(move)]: a pawn move or a capture. *)
Definition is_zeroing (st : BoardState) (m : Move) : bool :=
  if Nat.eqb (from_square m) (to_square m) then false
  else of_type st PAWN (from_square m) || of_type st PAWN (to_square m)
       || occupied_co st (opposite (turn st)) (from_square m)
       || occupied_co st (opposite (turn st)) (to_square m).

Definition is_null (m : Move) : bool :=
  Nat.eqb (from_square m) 0 && Nat.eqb (to_square m) 0
  && match promotion m with None => true | Some _ => false end.

(** The state part of [push(move)].  The library expects a pseudo-legal
    move and asserts that the origin holds a piece; the program only pushes
    moves the library has found legal. *)
Definition play (b : Board) (move : Move) : BoardState :=
  let st := state b in
  let us := turn st in
  let them := opposite us in
  let move := to_chess960 st move in
  let from := from_square move in
  let to := to_square move in
  let rights := clean_castling_rights b in
  let fullmove := match us with
                  | BLACK => S (fullmove_number st)
                  | WHITE => fullmove_number st
                  end in
  if is_null move then
    mkState (placement st) them rights None (S (halfmove_clock st)) fullmove
  else
    let clock := if is_zeroing st move then 0 else S (halfmove_clock st) in
    match piece_type_at st from with
    | None => mkState (placement st) them rights None clock fullmove
    | Some moved =>
        let pl := set_nth from None (placement st) in
        let captured := nth to pl None in
        let rights := filter (fun s => negb (Nat.eqb s to)
                                       && negb (Nat.eqb s from)) rights in
        let rights :=
          match moved, option_map piece_type captured with
          | KING, _ =>
              filter (fun s => negb (Nat.eqb (square_rank s) (backrank us)))
                     rights
          | _, Some KING =>
              if Nat.eqb (square_rank to) (backrank them)
              then filter (fun s => negb (Nat.eqb (square_rank s)
                                                  (backrank them))) rights
              else rights
          | _, _ => rights
          end in
        let diff := (Z.of_nat to - Z.of_nat from)%Z in
        let double_step :=
          match moved with
          | PAWN => ((diff =? 16)%Z && Nat.eqb (square_rank from) 1)
                    || ((diff =? -16)%Z && Nat.eqb (square_rank from) 6)
          | _ => false
          end in
        let en_passant :=
          match moved, ep_square st, captured with
          | PAWN, Some ep, None =>
              negb double_step && Nat.eqb to ep
              && ((Z.abs diff =? 7) || (Z.abs diff =? 9))%Z
          | _, _, _ => false
          end in
        let ep' := if double_step then Some ((from + to) / 2) else None in
        let pl := if en_passant
                  then set_nth (match us with
                                | WHITE => to - 8
                                | BLACK => to + 8
                                end) None pl
                  else pl in
        let final := match promotion move with
                     | Some promoted => promoted
                     | None => moved
                     end in
        let castling :=
          match final, captured with
          | KING, Some p => color_eqb (color p) us
          | _, _ => false
          end in
        let pl :=
          if castling then
            let a_side := square_file to <? square_file from in
            let pl := set_nth to None pl in
            let pl := set_nth (square (if a_side then 2 else 6) (backrank us))
                              (Some (mkPiece KING us)) pl in
            set_nth (square (if a_side then 3 else 5) (backrank us))
                    (Some (mkPiece ROOK us)) pl
          else set_nth to (Some (mkPiece final us)) pl in
        mkState pl them rights ep' clock fullmove
    end.

(** The move as [push] appends it to the move stack. *)
Definition recorded (b : Board) (move : Move) : Move :=
  let st := state b in
  from_chess960 st (to_chess960 st move).

(** *** Move generation *)

Definition promotions (from to : Square) : list Move :=
  if Nat.eqb (square_rank to) 0 || Nat.eqb (square_rank to) 7
  then map (fun pt => mkMove from to (Some pt)) [QUEEN; ROOK; BISHOP; KNIGHT]
  else [mkMove from to None].

(** [generate_pseudo_legal_ep(from_mask, to_mask)]; a square 0 counts as no
    en passant square. *)
Definition generate_pseudo_legal_ep (st : BoardState)
    (from_mask to_mask : Bitboard) : list Move :=
  match ep_square st with
  | None | Some O => []
  | Some ep =>
      if negb (to_mask ep) || occupied st ep then []
      else map (fun capturer => mkMove capturer ep None)
               (scan_reversed
                  (fun s => own st PAWN (turn st) s && from_mask s
                            && pawn_attacks (opposite (turn st)) ep s
                            && Nat.eqb (square_rank s)
                                 (match turn st with
                                  | WHITE => 4
                                  | BLACK => 3
                                  end)))
  end.

(** [generate_pseudo_legal_moves(from_mask, to_mask)] *)
Definition generate_pseudo_legal_moves (b : Board)
    (from_mask to_mask : Bitboard) : list Move :=
  let st := state b in
  let us := turn st in
  let backward (s : Square) (n : nat) : option Square :=
    match us with
    | WHITE => if n <=? s then Some (s - n) else None
    | BLACK => if s + n <? 64 then Some (s + n) else None
    end in
  let pawns : Bitboard := fun s => own st PAWN us s && from_mask s in
  let single_moves : Bitboard :=
    fun s => match backward s 8 with
             | Some origin => pawns origin && negb (occupied st s)
             | None => false
             end in
  let double_moves : Bitboard :=
    fun s => match backward s 8 with
             | Some middle =>
                 single_moves middle && negb (occupied st s)
                 && match us with
                    | WHITE => Nat.eqb (square_rank s) 2
                               || Nat.eqb (square_rank s) 3
                    | BLACK => Nat.eqb (square_rank s) 5
                               || Nat.eqb (square_rank s) 4
                    end
             | None => false
             end in
  flat_map
    (fun from =>
       map (fun to => mkMove from to None)
           (scan_reversed (fun to => attacks_mask st from to
                                     && negb (occupied_co st us to)
                                     && to_mask to)))
    (scan_reversed (fun s => occupied_co st us s && negb (of_type st PAWN s)
                             && from_mask s))
  ++ (if any (fun s => from_mask s && of_type st KING s)
      then generate_castling_moves b from_mask to_mask else [])
  ++ (if any pawns then
        flat_map
          (fun from =>
             flat_map (promotions from)
                      (scan_reversed (fun to => pawn_attacks us from to
                                                && occupied_co st (opposite us) to
                                                && to_mask to)))
          (scan_reversed pawns)
        ++ flat_map (fun to => match backward to 8 with
                               | Some from => promotions from to
                               | None => []
                               end)
                    (scan_reversed (fun s => single_moves s && to_mask s))
        ++ flat_map (fun to => match backward to 16 with
                               | Some from => [mkMove from to None]
                               | None => []
                               end)
                    (scan_reversed (fun s => double_moves s && to_mask s))
        ++ generate_pseudo_legal_ep st from_mask to_mask
      else []).

(** [is_castling(move)] *)
Definition is_castling (st : BoardState) (m : Move) : bool :=
  of_type st KING (from_square m)
  && ((1 <? square_file (from_square m) - square_file (to_square m))
      || (1 <? square_file (to_square m) - square_file (from_square m))
      || own st ROOK (turn st) (to_square m)).

(** [_is_safe(king, blockers, move)], for the king [k] found before the
    move.  A move of that king is safe when it castles or when its
    destination is not attacked on the board as it stands; a move of anything
    else, when [k] is not attacked once it is played, which is what the
    library reads off the pieces pinned to [k]. *)
Definition is_safe (b : Board) (k : Square) (m : Move) : bool :=
  let st := state b in
  let them := opposite (turn st) in
  if Nat.eqb (from_square m) k then
    if is_castling st m then true
    else negb (is_attacked_by st them (to_square m))
  else negb (is_attacked_by (play b m) them k).

Definition checkers_mask (st : BoardState) (k : Square) : Bitboard :=
  attackers_mask st (occupied st) (opposite (turn st)) k.

(** [_generate_evasions(king, checkers)]: king moves off the lines of the
    checking sliders, then captures and interpositions against a single
    checker. *)
Definition generate_evasions (b : Board) (k : Square) (checkers : Bitboard)
  : list Move :=
  let st := state b in
  let us := turn st in
  let sliders : Bitboard :=
    fun s => checkers s
             && (of_type st BISHOP s || of_type st ROOK s
                 || of_type st QUEEN s) in
  let attacked : Bitboard :=
    fun s => existsb (fun checker => ray k checker s && negb (Nat.eqb s checker))
                     (scan_reversed sliders) in
  map (fun to => mkMove k to None)
      (scan_reversed (fun to => king_attacks k to
                                && negb (occupied_co st us to)
                                && negb (attacked to)))
  ++ match scan_reversed checkers with
     | [checker] =>
         let target : Bitboard :=
           fun s => Nat.eqb s checker
                    || existsb (Nat.eqb s) (between k checker) in
         generate_pseudo_legal_moves b (fun s => negb (of_type st KING s))
                                     target
         ++ match ep_square st with
            | None | Some O => []
            | Some ep =>
                if negb (target ep)
                   && Nat.eqb (match us with
                               | WHITE => ep - 8
                               | BLACK => ep + 8
                               end) checker
                then generate_pseudo_legal_ep st BB_ALL BB_ALL
                else []
            end
     | _ => []
     end.

(** [is_into_check(move)]: with the king found before the move in check,
    anything but an evasion; otherwise, and for an evasion, a move that is
    not safe. *)
Definition is_into_check (b : Board) (m : Move) : bool :=
  let st := state b in
  match king st (turn st) with
  | Some k =>
      any (checkers_mask st k)
      && negb (existsb (move_eqb m)
                       (generate_evasions b k (checkers_mask st k)))
      || negb (is_safe b k m)
  | None => false
  end.

(** [generate_legal_moves()] *)
Definition generate_legal_moves (b : Board) : list Move :=
  let st := state b in
  match king st (turn st) with
  | Some k =>
      filter (is_safe b k)
             (if any (checkers_mask st k)
              then generate_evasions b k (checkers_mask st k)
              else generate_pseudo_legal_moves b BB_ALL BB_ALL)
  | None => generate_pseudo_legal_moves b BB_ALL BB_ALL
  end.

(** [is_pseudo_legal(move)] *)
Definition is_pseudo_legal (b : Board) (m : Move) : bool :=
  let st := state b in
  let from := from_square m in
  let to := to_square m in
  if is_null m then false
  else
    match at_square st from with
    | None => false
    | Some p =>
        if negb (color_eqb (color p) (turn st)) then false
        else if match promotion m with
                | Some _ =>
                    negb (piece_type_eqb (piece_type p) PAWN)
                    || negb (Nat.eqb (square_rank to)
                                     (backrank (opposite (turn st))))
                | None => false
                end then false
        else if piece_type_eqb (piece_type p) KING
                && existsb (move_eqb (from_chess960 st (mkMove from to (promotion m))))
                           (generate_castling_moves b BB_ALL BB_ALL) then true
        else if occupied_co st (turn st) to then false
        else if piece_type_eqb (piece_type p) PAWN
        then existsb (move_eqb m)
                     (generate_pseudo_legal_moves b (Nat.eqb from) (Nat.eqb to))
        else attacks_mask st from to
    end.

(** [is_legal(move)], the test behind [move in board.legal_moves]. *)
Definition is_legal (b : Board) (m : Move) : bool :=
  is_pseudo_legal b m && negb (is_into_check b m).

(** *** Automatic draws *)

Definition dark_square (s : Square) : bool :=
  Nat.even (square_file s + square_rank s).

(** [has_insufficient_material(color)] *)
Definition has_insufficient_material (st : BoardState) (c : Color) : bool :=
  let ours := occupied_co st c in
  if any (fun s => ours s && (of_type st PAWN s || of_type st ROOK s
                              || of_type st QUEEN s)) then false
  else if any (fun s => ours s && of_type st KNIGHT s) then
    (popcount ours <=? 2)
    && negb (any (fun s => occupied_co st (opposite c) s
                           && negb (of_type st KING s)
                           && negb (of_type st QUEEN s)))
  else if any (fun s => ours s && of_type st BISHOP s) then
    (negb (any (fun s => of_type st BISHOP s && dark_square s))
     || negb (any (fun s => of_type st BISHOP s && negb (dark_square s))))
    && negb (any (of_type st PAWN)) && negb (any (of_type st KNIGHT))
  else true.

Definition is_insufficient_material (b : Board) : bool :=
  has_insufficient_material (state b) WHITE
  && has_insufficient_material (state b) BLACK.

(** [is_seventyfive_moves()] *)
Definition is_seventyfive_moves (b : Board) : bool :=
  (150 <=? halfmove_clock (state b))
  && match generate_legal_moves b with [] => false | _ :: _ => true end.

Definition has_legal_en_passant (b : Board) : bool :=
  match ep_square (state b) with
  | None => false
  | Some _ =>
      existsb (fun m => negb (is_into_check b m))
              (generate_pseudo_legal_ep (state b) BB_ALL BB_ALL)
  end.

(** What two positions must share to count as a repetition. *)
Definition same_position (b c : Board) : bool :=
  let key_ep (x : Board) :=
    if has_legal_en_passant x then ep_square (state x) else None in
  forallb (fun s => match at_square (state b) s, at_square (state c) s with
                    | Some p, Some q => piece_eqb p q
                    | None, None => true
                    | _, _ => false
                    end) (seq 0 64)
  && color_eqb (turn (state b)) (turn (state c))
  && forallb (fun s => Bool.eqb (existsb (Nat.eqb s) (clean_castling_rights b))
                                (existsb (Nat.eqb s) (clean_castling_rights c)))
             [A1; H1; A8; H8]
  && match key_ep b, key_ep c with
     | Some x, Some y => Nat.eqb x y
     | None, None => true
     | _, _ => false
     end.

(** [_reduces_castling_rights(move)] *)
Definition reduces_castling_rights (b : Board) (m : Move) : bool :=
  let st := state b in
  let cr := clean_castling_rights b in
  let touched (s : Square) : bool :=
    negb (Nat.eqb (from_square m) (to_square m))
    && (Nat.eqb s (from_square m) || Nat.eqb s (to_square m)) in
  existsb touched cr
  || existsb (fun s => Nat.eqb (square_rank s) 0) cr
     && any (fun s => touched s && own st KING WHITE s)
  || existsb (fun s => Nat.eqb (square_rank s) 7) cr
     && any (fun s => touched s && own st KING BLACK s).

(** [is_irreversible(move)] *)
Definition is_irreversible (b : Board) (m : Move) : bool :=
  is_zeroing (state b) m || reduces_castling_rights b m
  || has_legal_en_passant b.

(** The replay of [is_repetition(count)]: walk the move stack back from
    [cur], counting the positions equal to [b], until [count] are found, the
    stack is too short, or an irreversible move is met. *)
Fixpoint replay (b : Board) (count : nat) (cur : Board)
    (moves : list Move) (states : list BoardState) : bool :=
  let count := if same_position cur b then count - 1 else count in
  if count <? 1 then true
  else if length moves <? count then false
  else
    match moves, states with
    | m :: moves', st :: states' =>
        let previous := mkBoard st moves' states' in
        if is_irreversible previous m then false
        else replay b count previous moves' states'
    | _, _ => false
    end.

(** [is_repetition(count)]: first the quick test on occupancy alone. *)
Definition is_repetition (b : Board) (count : nat) : bool :=
  let same_occupied (st : BoardState) :=
    forallb (fun s => Bool.eqb (occupied st s) (occupied (state b) s))
            (seq 0 64) in
  if S (length (filter same_occupied (saved b))) <? count then false
  else replay b count b (move_stack b) (saved b).

Definition is_fivefold_repetition (b : Board) : bool := is_repetition b 5.

Definition automatic_draw (b : Board) : bool :=
  is_insufficient_material b || is_seventyfive_moves b
  || is_fivefold_repetition b.

#[export] Instance rules : Rules := {|
  Chess.play := play;
  Chess.recorded := recorded;
  Chess.generate_legal_moves := generate_legal_moves;
  Chess.is_legal := is_legal;
  Chess.automatic_draw := automatic_draw
|}.

(** *** Positions *)

(** A position given by its pieces, with no castling rights, no en passant
    square and nothing pushed. *)
Definition position (pieces : list (Square * Piece)) (c : Color) : Board :=
  mkBoard
    (mkState
       (fold_left (fun pl '(s, p) => set_nth s (Some p) pl) pieces
                  (repeat None 64))
       c [] None 0 1)
    [] [].

(** White: king h1, rook d1.  Black: king h8, queen d8.  White to move;
    the rook can take the queen, which nothing defends. *)
Definition queen_hangs : Board :=
  position [ (H1, mkPiece KING WHITE); (D1, mkPiece ROOK WHITE);
             (D8, mkPiece QUEEN BLACK); (H8, mkPiece KING BLACK) ] WHITE.

(** Black to move and stalemated: king a8 against queen b6 and king h1. *)
Definition stalemate : Board :=
  position [ (A8, mkPiece KING BLACK); (41, mkPiece QUEEN WHITE);
             (H1, mkPiece KING WHITE) ] BLACK.

(** White to move with a pawn on a7 about to promote on a8. *)
Definition pawn_on_a7 : Board :=
  position [ (48, mkPiece PAWN WHITE); (E1, mkPiece KING WHITE);
             (H8, mkPiece KING BLACK) ] WHITE.

End PythonChess.

(** ** Notions used in the proofs *)

(** A computation that, whenever it returns, returns on the board it
    started from. *)
Definition restores {A} (c : M A) : Prop :=
  forall b a b', c b = (Ok a, b') -> b' = b.

(** What a search with window [(alpha, beta)] promises about its result [r]
    when the exhaustive value is [v]: a result at or below the window bounds
    the value from above, one at or above it bounds the value from below, and
    one inside the window is the value. *)
Definition within (alpha beta r v : Number) : Prop :=
  (le r alpha = true -> le v r = true)
  /\ (le beta r = true -> le r v = true)
  /\ (lt alpha r = true -> lt r beta = true -> r = v).

(** The same while a maximizing loop has not left: the running maximum [e]
    against the maximum [v] of the exhaustive values met so far. *)
Definition max_so_far (alpha e v : Number) : Prop :=
  (le e alpha = true -> le v e = true) /\ (lt alpha e = true -> e = v).

Definition min_so_far (beta e v : Number) : Prop :=
  (le beta e = true -> le e v = true) /\ (lt e beta = true -> e = v).

(** The move the loop of [get_best_move] ends with when the positions after
    the moves evaluate to [v]. *)
Fixpoint choose (v : Move -> Z) (moves : list Move)
    (best_move : option Move) (best_value : Number) : option Move :=
  match moves with
  | [] => best_move
  | move :: rest =>
      if gt (Int (v move)) best_value
      then choose v rest (Some move) (Int (v move))
      else choose v rest best_move best_value
  end.

(** Whether a rectangle contains a pixel. *)
Definition covers (rect : Rect) (x y : Z) : bool :=
  ((left rect <=? x) && (x <? left rect + width rect)
   && (top rect <=? y) && (y <? top rect + height rect))%Z.

(** Whether one of the filled rectangles of a drawing contains a pixel. *)
Definition painted (drawings : list Drawing) (x y : Z) : bool :=
  existsb (fun d => match d with
                    | FillRect _ rect => covers rect x y
                    | _ => false
                    end) drawings.

(** The squares in the order the drawing loops visit them: rank 8 first,
    each rank from file a to file h. *)
Definition drawing_order : list Square :=
  flat_map (fun rank => map (fun file => square file rank) (seq 0 8))
           [7; 6; 5; 4; 3; 2; 1; 0].

(** The centre of a square on the screen. *)
Definition square_center (sq : Square) : Z * Z :=
  (left (square_rect sq) + SQ_SIZE / 2, top (square_rect sq) + SQ_SIZE / 2)%Z.

(** The colour pieces of a side are drawn in, line 120. *)
Definition piece_fill (p : Piece) : RGB :=
  match color p with
  | BLACK => (10, 10, 10)%Z
  | WHITE => (245, 245, 245)%Z
  end.

(** The material advantage of side [c] on a board. *)
Definition advantage (b : Board) (c : Color) : Z :=
  (material b c - material b (opposite c))%Z.

(** Rules under which every move passes the turn, as the rules of chess
    do. *)
Definition turn_passes (R : Rules) : Prop :=
  forall b m, board_turn (push b m) = opposite (board_turn b).

(** The events of a frame whose clicks find the pointer inside the
    window. *)
Definition click_in_window (e : Event) : Prop :=
  match e with
  | MOUSEBUTTONDOWN x y => (0 <= x < WIDTH /\ 0 <= y < HEIGHT)%Z
  | QUIT | OTHER => True
  end.

(** The pending origin, when there is one, is a square of the board. *)
Definition origin_on_board (s : Session) : Prop :=
  forall origin, selected_square s = Some origin -> origin < 64.

(** The pending origin, when there is one, holds a piece of the human, who
    is to move. *)
Definition selection_sound (s : Session) : Prop :=
  forall sq,
    selected_square s = Some sq ->
    board_turn (board s) = player_color
    /\ exists p, piece_at (board s) sq = Some p /\ color p = player_color.

(** Sessions on the positions above, the human to pick or having picked a
    square. *)
Definition e2_selected : Session :=
  mkSession initial_board true (Some 12%nat).

Definition a7_selected : Session :=
  mkSession PythonChess.pawn_on_a7 true (Some 48%nat).

Definition stalemated : Session :=
  mkSession PythonChess.stalemate true None.

(** * Properties *)

Local Open Scope Z_scope.

(** ** Evaluation *)

Lemma len_cons {A} (x : A) (l : list A) : len (x :: l) = 1 + len l.
Proof. unfold len. cbn [length]. lia. Qed.

(** Counting kind by kind and adding square by square give the same
    material. *)
Lemma material_by_kind (c : Color) (l : list (option Piece)) (s : Square) :
  fold_right
    (fun o total =>
       match o with
       | Some p => if color_eqb (color p) c
                   then piece_value (piece_type p) + total
                   else total
       | None => total
       end) 0 l
  = 100 * len (squares_where (holds PAWN c) s l)
    + 320 * len (squares_where (holds KNIGHT c) s l)
    + 330 * len (squares_where (holds BISHOP c) s l)
    + 500 * len (squares_where (holds ROOK c) s l)
    + 900 * len (squares_where (holds QUEEN c) s l)
    + 20000 * len (squares_where (holds KING c) s l).
Proof.
  revert s. induction l as [|o l IH]; intros s.
  - reflexivity.
  - cbn [fold_right squares_where]. rewrite (IH (S s)).
    destruct o as [[pt pc]|]; [|reflexivity].
    destruct pt, pc, c;
      cbn -[Z.mul Z.add len]; rewrite ?len_cons; lia.
Qed.

(** C2. [evaluate_board] is the sum over the table of value times (White's
    count minus Black's count), negated when Black is to move; it is the
    material of the side to move minus that of the other side; and the same
    placement with the side to move flipped evaluates to the negation. *)
Theorem evaluate_board_material (b : Board) :
  let count pt c := len (pieces b pt c) in
  let white_score :=
    100 * (count PAWN WHITE - count PAWN BLACK)
    + 320 * (count KNIGHT WHITE - count KNIGHT BLACK)
    + 330 * (count BISHOP WHITE - count BISHOP BLACK)
    + 500 * (count ROOK WHITE - count ROOK BLACK)
    + 900 * (count QUEEN WHITE - count QUEEN BLACK)
    + 20000 * (count KING WHITE - count KING BLACK) in
  evaluate_board b
  = match board_turn b with WHITE => white_score | BLACK => - white_score end
  /\ evaluate_board b
     = material b (board_turn b) - material b (opposite (board_turn b))
  /\ evaluate_board (with_turn b (opposite (board_turn b)))
     = - evaluate_board b.
Proof.
  cbv zeta. unfold evaluate_board, material, pieces.
  rewrite !(material_by_kind _ _ 0%nat).
  unfold PIECE_VALUES, with_turn, board_turn. cbn [fold_left state placement turn].
  destruct (turn (state b)); cbn [opposite]; repeat split; lia.
Qed.

(** ** The search leaves the board as it found it *)

Section Frame.
Context {R : Rules}.

Lemma pop_push (b : Board) (m : Move) : pop (push b m) = Some b.
Proof. destruct b; reflexivity. Qed.

(** One iteration's [push; child; pop] around a child that returned on the
    board it was given. *)
Lemma push_child_pop {A B} (child : M A) (k : A -> M B) (b : Board)
    (m : Move) (a : A) :
  child (push b m) = (Ok a, push b m) ->
  bind (board_push m) (fun _ => bind child (fun x => bind board_pop (fun _ => k x))) b
  = k a b.
Proof.
  intros H. unfold bind, board_push, board_pop.
  rewrite H, pop_push. reflexivity.
Qed.

Lemma restores_iteration {A B} (child : M A) (k : A -> M B) (m : Move) :
  restores child ->
  (forall a, restores (k a)) ->
  restores (bind (board_push m)
                 (fun _ => bind child (fun x => bind board_pop (fun _ => k x)))).
Proof.
  intros Hc Hk b r b'. unfold bind, board_push, board_pop.
  destruct (child (push b m)) as [[a|e] b1] eqn:E; [|discriminate].
  apply Hc in E. subst b1. rewrite pop_push. apply Hk.
Qed.

Lemma restores_ret {A} (a : A) : restores (ret a).
Proof. intros b r b' H. inversion H. reflexivity. Qed.

Lemma restores_ask {A} (f : Board -> A) : restores (ask f).
Proof. intros b r b' H. inversion H. reflexivity. Qed.

Lemma restores_to_int (x : Number) : restores (to_int x).
Proof. destruct x; intros b r b' H; inversion H. reflexivity. Qed.

Lemma restores_bind {A B} (c : M A) (k : A -> M B) :
  restores c -> (forall a, restores (k a)) -> restores (bind c k).
Proof.
  intros Hc Hk b r b'. unfold bind.
  destruct (c b) as [[a|e] b1] eqn:E; [|discriminate].
  apply Hc in E. subst b1. apply Hk.
Qed.

Lemma max_loop_restores (child : Number -> Number -> M Z) :
  (forall alpha beta, restores (child alpha beta)) ->
  forall moves max_eval alpha beta,
    restores (max_loop child moves max_eval alpha beta).
Proof.
  intros Hc. induction moves as [|m rest IH]; intros max_eval alpha beta.
  - apply restores_ret.
  - cbn [max_loop]. apply restores_iteration; [apply Hc|].
    intros a. destruct (le beta _); [apply restores_ret | apply IH].
Qed.

Lemma min_loop_restores (child : Number -> Number -> M Z) :
  (forall alpha beta, restores (child alpha beta)) ->
  forall moves min_eval alpha beta,
    restores (min_loop child moves min_eval alpha beta).
Proof.
  intros Hc. induction moves as [|m rest IH]; intros min_eval alpha beta.
  - apply restores_ret.
  - cbn [min_loop]. apply restores_iteration; [apply Hc|].
    intros a. destruct (le _ alpha); [apply restores_ret | apply IH].
Qed.

Lemma minimax_restores (fuel : nat) :
  forall depth alpha beta maximizing,
    restores (minimax fuel depth alpha beta maximizing).
Proof.
  induction fuel as [|fuel IH]; intros depth alpha beta maximizing.
  - intros b r b' H. discriminate.
  - cbn [minimax]. apply restores_bind; [apply restores_ask|].
    intros [|]; [apply restores_ask|].
    destruct maximizing;
      (apply restores_bind; [apply restores_ask|]; intros moves;
       apply restores_bind; [|apply restores_to_int]).
    + apply max_loop_restores. intros a b. apply IH.
    + apply min_loop_restores. intros a b. apply IH.
Qed.

Lemma best_move_loop_restores (child : M Z) :
  restores child ->
  forall moves best_move best_value,
    restores (best_move_loop child moves best_move best_value).
Proof.
  intros Hc. induction moves as [|m rest IH]; intros best_move best_value.
  - apply restores_ret.
  - cbn [best_move_loop]. apply restores_iteration; [apply Hc|].
    intros a. destruct (gt _ _); apply IH.
Qed.

Lemma get_best_move_restores (fuel : nat) (depth : Z) :
  restores (get_best_move fuel depth).
Proof.
  unfold get_best_move. apply restores_bind; [apply restores_ask|].
  intros moves. apply best_move_loop_restores, minimax_restores.
Qed.

End Frame.

(** ** Pruning and the exhaustive value *)

(** Comparisons of numbers are decided by cases on infinities and linear
    arithmetic on the rest. *)
Lemma Int_eq (x y : Z) : Int x = Int y <-> x = y.
Proof. split; [intros H; injection H as H; exact H | intros ->; reflexivity]. Qed.

Lemma Int_NegInf (z : Z) : Int z = NegInf <-> False.
Proof. split; [discriminate | contradiction]. Qed.

Lemma Int_PosInf (z : Z) : Int z = PosInf <-> False.
Proof. split; [discriminate | contradiction]. Qed.

Lemma NegInf_Int (z : Z) : NegInf = Int z <-> False.
Proof. split; [discriminate | contradiction]. Qed.

Lemma PosInf_Int (z : Z) : PosInf = Int z <-> False.
Proof. split; [discriminate | contradiction]. Qed.

Lemma NegInf_PosInf : NegInf = PosInf <-> False.
Proof. split; [discriminate | contradiction]. Qed.

Lemma PosInf_NegInf : PosInf = NegInf <-> False.
Proof. split; [discriminate | contradiction]. Qed.

Lemma NegInf_NegInf : NegInf = NegInf <-> True.
Proof. split; trivial. Qed.

Lemma PosInf_PosInf : PosInf = PosInf <-> True.
Proof. split; trivial. Qed.

Lemma true_is_true : true = true <-> True.
Proof. split; trivial. Qed.

Lemma false_is_true : false = true <-> False.
Proof. split; [discriminate | contradiction]. Qed.

Ltac number_prune :=
  cbn [lt negb] in *;
  try match goal with
      | H : false = true |- _ => discriminate H
      | H : true = false |- _ => discriminate H
      end.

Ltac number_props :=
  repeat match goal with
         | H : context [Z.ltb _ _] |- _ =>
             first [ rewrite Bool.negb_true_iff in H
                   | rewrite Bool.negb_false_iff in H
                   | rewrite Z.ltb_lt in H
                   | rewrite Z.ltb_ge in H ]
         | |- context [Z.ltb _ _] =>
             first [ rewrite Bool.negb_true_iff
                   | rewrite Bool.negb_false_iff
                   | rewrite Z.ltb_lt
                   | rewrite Z.ltb_ge ]
         end.

Ltac number_cases :=
  unfold within, max_so_far, min_so_far, nmax, nmin, le, gt in *;
  repeat (match goal with x : Number |- _ => destruct x end; number_prune);
  repeat (match goal with
          | H : context [if (?x <? ?y)%Z then _ else _] |- _ =>
              destruct (Z.ltb_spec x y)
          | |- context [if (?x <? ?y)%Z then _ else _] =>
              destruct (Z.ltb_spec x y)
          end; number_prune);
  number_props;
  rewrite ?Int_eq, ?Int_NegInf, ?Int_PosInf, ?NegInf_Int, ?PosInf_Int,
    ?NegInf_PosInf, ?PosInf_NegInf, ?NegInf_NegInf, ?PosInf_PosInf,
    ?true_is_true, ?false_is_true in *;
  try lia.

Lemma fold_nmax_le (l : list Z) (acc : Number) :
  le acc (fold_left (fun a x => nmax a (Int x)) l acc) = true.
Proof.
  revert acc. induction l as [|x l IH]; intros acc; cbn [fold_left].
  - number_cases.
  - specialize (IH (nmax acc (Int x))).
    destruct (fold_left _ l _) as [|z|]; number_cases.
Qed.

Lemma fold_nmin_le (l : list Z) (acc : Number) :
  le (fold_left (fun a x => nmin a (Int x)) l acc) acc = true.
Proof.
  revert acc. induction l as [|x l IH]; intros acc; cbn [fold_left].
  - number_cases.
  - specialize (IH (nmin acc (Int x))).
    destruct (fold_left _ l _) as [|z|]; number_cases.
Qed.

Section Pruning.
Context {R : Rules}.

Lemma nmax_assoc (a b c : Number) : nmax (nmax a b) c = nmax a (nmax b c).
Proof. number_cases. Qed.

Lemma nmin_assoc (a b c : Number) : nmin (nmin a b) c = nmin a (nmin b c).
Proof. number_cases. Qed.

Lemma nmax_is_int (alpha0 e beta : Number) (r : Z) :
  lt (nmax alpha0 e) beta = true -> exists z, nmax e (Int r) = Int z.
Proof.
  intros H. destruct e as [|x|].
  - exists r. reflexivity.
  - unfold nmax. destruct (lt (Int x) (Int r)); eexists; reflexivity.
  - exfalso. number_cases.
Qed.

Lemma nmin_is_int (alpha beta0 e : Number) (r : Z) :
  lt alpha (nmin beta0 e) = true -> exists z, nmin e (Int r) = Int z.
Proof.
  intros H. destruct e as [|x|].
  - exfalso. number_cases.
  - unfold nmin. destruct (lt (Int r) (Int x)); eexists; reflexivity.
  - exists r. reflexivity.
Qed.

(** The maximizing loop from any point on: with the moves still to come
    answered within their windows, the loop returns on the board it was given
    and its result is within the window it started from. *)
Lemma max_loop_within (child : Number -> Number -> M Z) (v : Move -> Z)
    (b : Board) (alpha0 beta : Number) :
  forall moves,
    (forall m a, In m moves -> lt a beta = true ->
       exists r, child a beta (push b m) = (Ok r, push b m)
                 /\ within a beta (Int r) (Int (v m))) ->
    forall e seen,
      lt (nmax alpha0 e) beta = true ->
      max_so_far alpha0 e seen ->
      exists res,
        max_loop child moves e (nmax alpha0 e) beta b = (Ok res, b)
        /\ within alpha0 beta res
             (fold_left (fun a x => nmax a (Int x)) (map v moves) seen)
        /\ (moves <> [] -> exists z, res = Int z).
Proof.
  induction moves as [|m rest IH]; intros Hchild e seen Hlt Hseen.
  - exists e. cbn [max_loop map fold_left]. repeat split; try easy.
    all: clear Hchild; number_cases.
  - destruct (Hchild m (nmax alpha0 e) (or_introl eq_refl) Hlt)
      as (r & Hr & Hw).
    cbn [max_loop map fold_left].
    rewrite push_child_pop with (a := r) by exact Hr.
    cbv zeta. unfold gt.
    change (if lt e (Int r) then Int r else e) with (nmax e (Int r)).
    change (if lt (nmax alpha0 e) (Int r) then Int r else nmax alpha0 e)
      with (nmax (nmax alpha0 e) (Int r)).
    rewrite nmax_assoc.
    destruct (le beta (nmax alpha0 (nmax e (Int r)))) eqn:Hbreak.
    + exists (nmax e (Int r)). split; [reflexivity|].
      pose proof (fold_nmax_le (map v rest) (nmax seen (Int (v m)))) as Hge.
      set (total := fold_left _ (map v rest) _) in *. clearbody total.
      split; [|intros _; eapply nmax_is_int; exact Hlt].
      clear IH Hchild Hr. number_cases.
    + destruct (IH (fun m' a Hin => Hchild m' a (or_intror Hin))
                   (nmax e (Int r)) (nmax seen (Int (v m))))
        as (res & Hres & Hwithin & Hint).
      * clear - Hbreak. number_cases.
      * clear - Hw Hseen Hlt Hbreak. number_cases.
      * exists res. repeat split; try apply Hwithin; try exact Hres.
        intros _. destruct rest as [|m' rest'].
        -- cbn [max_loop] in Hres. inversion Hres.
           eapply nmax_is_int; exact Hlt.
        -- apply Hint. discriminate.
Qed.

(** The minimizing loop, symmetrically. *)
Lemma min_loop_within (child : Number -> Number -> M Z) (v : Move -> Z)
    (b : Board) (alpha beta0 : Number) :
  forall moves,
    (forall m c, In m moves -> lt alpha c = true ->
       exists r, child alpha c (push b m) = (Ok r, push b m)
                 /\ within alpha c (Int r) (Int (v m))) ->
    forall e seen,
      lt alpha (nmin beta0 e) = true ->
      min_so_far beta0 e seen ->
      exists res,
        min_loop child moves e alpha (nmin beta0 e) b = (Ok res, b)
        /\ within alpha beta0 res
             (fold_left (fun a x => nmin a (Int x)) (map v moves) seen)
        /\ (moves <> [] -> exists z, res = Int z).
Proof.
  induction moves as [|m rest IH]; intros Hchild e seen Hlt Hseen.
  - exists e. cbn [min_loop map fold_left]. repeat split; try easy.
    all: clear Hchild; number_cases.
  - destruct (Hchild m (nmin beta0 e) (or_introl eq_refl) Hlt)
      as (r & Hr & Hw).
    cbn [min_loop map fold_left].
    rewrite push_child_pop with (a := r) by exact Hr.
    cbv zeta.
    change (if lt (Int r) e then Int r else e) with (nmin e (Int r)).
    change (if lt (Int r) (nmin beta0 e) then Int r else nmin beta0 e)
      with (nmin (nmin beta0 e) (Int r)).
    rewrite nmin_assoc.
    destruct (le (nmin beta0 (nmin e (Int r))) alpha) eqn:Hbreak.
    + exists (nmin e (Int r)). split; [reflexivity|].
      pose proof (fold_nmin_le (map v rest) (nmin seen (Int (v m)))) as Hge.
      set (total := fold_left _ (map v rest) _) in *. clearbody total.
      split; [|intros _; eapply nmin_is_int; exact Hlt].
      clear IH Hchild Hr. number_cases.
    + destruct (IH (fun m' c Hin => Hchild m' c (or_intror Hin))
                   (nmin e (Int r)) (nmin seen (Int (v m))))
        as (res & Hres & Hwithin & Hint).
      * clear - Hbreak. number_cases.
      * clear - Hw Hseen Hlt Hbreak. number_cases.
      * exists res. repeat split; try apply Hwithin; try exact Hres.
        intros _. destruct rest as [|m' rest'].
        -- cbn [min_loop] in Hres. inversion Hres.
           eapply nmin_is_int; exact Hlt.
        -- apply Hint. discriminate.
Qed.

Lemma nmax_eq_NegInf (x : Z) : nmax NegInf (Int x) = Int x.
Proof. reflexivity. Qed.

Lemma nmin_eq_PosInf (x : Z) : nmin PosInf (Int x) = Int x.
Proof. reflexivity. Qed.

Lemma nmax_NegInf (a : Number) : nmax a NegInf = a.
Proof. destruct a; reflexivity. Qed.

Lemma nmin_PosInf (a : Number) : nmin a PosInf = a.
Proof. destruct a; reflexivity. Qed.

Lemma fold_nmax_int (l : list Z) (z : Z) :
  exists z', fold_left (fun a x => nmax a (Int x)) l (Int z) = Int z'.
Proof.
  revert z. induction l as [|x l IH]; intros z; cbn [fold_left].
  - exists z. reflexivity.
  - unfold nmax at 2. destruct (lt (Int z) (Int x)); apply IH.
Qed.

Lemma fold_nmin_int (l : list Z) (z : Z) :
  exists z', fold_left (fun a x => nmin a (Int x)) l (Int z) = Int z'.
Proof.
  revert z. induction l as [|x l IH]; intros z; cbn [fold_left].
  - exists z. reflexivity.
  - unfold nmin at 2. destruct (lt (Int x) (Int z)); apply IH.
Qed.

(** A position where the game goes on has a legal move. *)
Lemma not_over_has_moves (b : Board) :
  is_game_over b = false -> legal_moves b <> [].
Proof.
  unfold is_game_over. destruct (legal_moves b); [discriminate|discriminate].
Qed.

Lemma max_loop_exhaustive_value (child : Number -> Number -> M Z)
    (v : Move -> Z) (b : Board) :
  forall moves,
    (forall m a c, In m moves -> child a c (push b m) = (Ok (v m), push b m)) ->
    forall e alpha beta,
      max_loop_exhaustive child moves e alpha beta b
      = (Ok (fold_left (fun a x => nmax a (Int x)) (map v moves) e), b).
Proof.
  induction moves as [|m rest IH]; intros Hchild e alpha beta.
  - reflexivity.
  - cbn [max_loop_exhaustive map fold_left].
    rewrite push_child_pop with (a := v m)
      by (apply Hchild; left; reflexivity).
    cbv zeta. apply IH. intros m' a c Hin. apply Hchild. right. exact Hin.
Qed.

Lemma min_loop_exhaustive_value (child : Number -> Number -> M Z)
    (v : Move -> Z) (b : Board) :
  forall moves,
    (forall m a c, In m moves -> child a c (push b m) = (Ok (v m), push b m)) ->
    forall e alpha beta,
      min_loop_exhaustive child moves e alpha beta b
      = (Ok (fold_left (fun a x => nmin a (Int x)) (map v moves) e), b).
Proof.
  induction moves as [|m rest IH]; intros Hchild e alpha beta.
  - reflexivity.
  - cbn [min_loop_exhaustive map fold_left].
    rewrite push_child_pop with (a := v m)
      by (apply Hchild; left; reflexivity).
    cbv zeta. apply IH. intros m' a c Hin. apply Hchild. right. exact Hin.
Qed.

(** The search without pruning returns the exhaustive value, on the board
    it was given, whenever the depth is not negative and the fuel exceeds
    it. *)
Lemma minimax_exhaustive_value (fuel : nat) :
  forall (d : nat) maximizing alpha beta b,
    (d < fuel)%nat ->
    minimax_exhaustive fuel (Z.of_nat d) alpha beta maximizing b
    = (Ok (exhaustive_value d maximizing b), b).
Proof.
  induction fuel as [|fuel IH]; intros d maximizing alpha beta b Hd; [lia|].
  cbn [minimax_exhaustive]. unfold bind at 1, ask at 1.
  destruct d as [|d].
  - reflexivity.
  - replace (Z.of_nat (S d) =? 0) with false by (symmetry; apply Z.eqb_neq; lia).
    replace (Z.of_nat (S d) - 1) with (Z.of_nat d) by lia.
    cbn [exhaustive_value].
    destruct (is_game_over b) eqn:Hover; [reflexivity|].
    apply not_over_has_moves in Hover.
    destruct maximizing; unfold bind, ask; cbn [negb].
    + rewrite max_loop_exhaustive_value
        with (v := fun m => exhaustive_value d false (push b m))
        by (intros; apply IH; lia).
      destruct (legal_moves b) as [|m rest]; [contradiction|].
      cbn [map fold_left negb]. rewrite nmax_eq_NegInf.
      destruct (fold_nmax_int
                  (map (fun m => exhaustive_value d false (push b m)) rest)
                  (exhaustive_value d false (push b m))) as (z & ->).
      reflexivity.
    + rewrite min_loop_exhaustive_value
        with (v := fun m => exhaustive_value d true (push b m))
        by (intros; apply IH; lia).
      destruct (legal_moves b) as [|m rest]; [contradiction|].
      cbn [map fold_left negb]. rewrite nmin_eq_PosInf.
      destruct (fold_nmin_int
                  (map (fun m => exhaustive_value d true (push b m)) rest)
                  (exhaustive_value d true (push b m))) as (z & ->).
      reflexivity.
Qed.

End Pruning.

(** ** The value the search returns and the move it chooses *)

Section Choice.
Context {R : Rules}.

Lemma within_refl (alpha beta : Number) (x : Z) :
  within alpha beta (Int x) (Int x).
Proof. number_cases. Qed.

Lemma within_full (r v : Z) : within NegInf PosInf (Int r) (Int v) -> r = v.
Proof.
  intros (_ & _ & H). specialize (H eq_refl eq_refl).
  injection H as H. exact H.
Qed.

(** The pruning search returns, on the board it was given, a value within
    its window of the exhaustive value. *)
Lemma minimax_within (fuel : nat) :
  forall (d : nat) maximizing alpha beta b,
    (d < fuel)%nat ->
    lt alpha beta = true ->
    exists r,
      minimax fuel (Z.of_nat d) alpha beta maximizing b = (Ok r, b)
      /\ within alpha beta (Int r) (Int (exhaustive_value d maximizing b)).
Proof.
  induction fuel as [|fuel IH]; intros d maximizing alpha beta b Hd Hlt; [lia|].
  cbn [minimax]. unfold bind at 1, ask at 1.
  destruct d as [|d].
  - eexists. split; [reflexivity|]. apply within_refl.
  - replace (Z.of_nat (S d) =? 0) with false by (symmetry; apply Z.eqb_neq; lia).
    replace (Z.of_nat (S d) - 1) with (Z.of_nat d) by lia.
    cbn [exhaustive_value].
    destruct (is_game_over b) eqn:Hover.
    { eexists. split; [reflexivity|]. apply within_refl. }
    apply not_over_has_moves in Hover.
    destruct maximizing; unfold bind, ask; cbn [negb].
    + destruct (@max_loop_within _
                  (fun a c => minimax fuel (Z.of_nat d) a c false)
                  (fun m => exhaustive_value d false (push b m))
                  b alpha beta (legal_moves b)) with (e := NegInf) (seen := NegInf)
        as (res & Hres & Hwithin & Hint).
      * intros m a _ Ha. apply IH; [lia | exact Ha].
      * rewrite nmax_NegInf. exact Hlt.
      * clear. number_cases.
      * rewrite nmax_NegInf in Hres. rewrite Hres.
        destruct (Hint Hover) as (z & ->). exists z. split; [reflexivity|].
        destruct (legal_moves b) as [|m rest]; [contradiction|].
        cbn [map fold_left] in *. rewrite nmax_eq_NegInf in *.
        destruct (fold_nmax_int
                    (map (fun m => exhaustive_value d false (push b m)) rest)
                    (exhaustive_value d false (push b m))) as (z' & Hz').
        rewrite Hz' in *. exact Hwithin.
    + destruct (@min_loop_within _
                  (fun a c => minimax fuel (Z.of_nat d) a c true)
                  (fun m => exhaustive_value d true (push b m))
                  b alpha beta (legal_moves b)) with (e := PosInf) (seen := PosInf)
        as (res & Hres & Hwithin & Hint).
      * intros m c _ Hc. apply IH; [lia | exact Hc].
      * rewrite nmin_PosInf. exact Hlt.
      * clear. number_cases.
      * rewrite nmin_PosInf in Hres. rewrite Hres.
        destruct (Hint Hover) as (z & ->). exists z. split; [reflexivity|].
        destruct (legal_moves b) as [|m rest]; [contradiction|].
        cbn [map fold_left] in *. rewrite nmin_eq_PosInf in *.
        destruct (fold_nmin_int
                    (map (fun m => exhaustive_value d true (push b m)) rest)
                    (exhaustive_value d true (push b m))) as (z' & Hz').
        rewrite Hz' in *. exact Hwithin.
Qed.

(** With the full window the pruning search returns the exhaustive value. *)
Lemma minimax_full_window (fuel d : nat) (maximizing : bool) (b : Board) :
  (d < fuel)%nat ->
  minimax fuel (Z.of_nat d) NegInf PosInf maximizing b
  = (Ok (exhaustive_value d maximizing b), b).
Proof.
  intros Hd.
  destruct (minimax_within maximizing NegInf PosInf b Hd eq_refl)
    as (r & Hr & Hw).
  apply within_full in Hw. subst r. exact Hr.
Qed.

Lemma best_move_loop_choose (child : M Z) (v : Move -> Z) (b : Board) :
  forall moves,
    (forall m, In m moves -> child (push b m) = (Ok (v m), push b m)) ->
    forall best_move best_value,
      best_move_loop child moves best_move best_value b
      = (Ok (choose v moves best_move best_value), b).
Proof.
  induction moves as [|m rest IH]; intros Hchild best_move best_value.
  - reflexivity.
  - cbn [best_move_loop choose].
    rewrite push_child_pop with (a := v m)
      by (apply Hchild; left; reflexivity).
    destruct (gt (Int (v m)) best_value);
      apply IH; intros m' Hin; apply Hchild; right; exact Hin.
Qed.

End Choice.

Section SearchLemmas.
Context {R : Rules}.

(** Every window: the search returns on the board it was given when the
    depth is not negative and the fuel exceeds it. *)
Lemma max_loop_returns (child : Number -> Number -> M Z) (b : Board) :
  forall moves,
    (forall m a c, In m moves ->
       exists r, child a c (push b m) = (Ok r, push b m)) ->
    forall e alpha beta,
      e <> PosInf ->
      exists res,
        max_loop child moves e alpha beta b = (Ok res, b)
        /\ res <> PosInf /\ (moves <> [] -> res <> NegInf).
Proof.
  induction moves as [|m rest IH]; intros Hchild e alpha beta He.
  - exists e. repeat split; [exact He | congruence].
  - destruct (Hchild m alpha beta (or_introl eq_refl)) as (r & Hr).
    cbn [max_loop]. rewrite push_child_pop with (a := r) by exact Hr.
    cbv zeta.
    assert (Hint : exists z, (if gt (Int r) e then Int r else e) = Int z).
    { destruct (gt (Int r) e) eqn:E; [eexists; reflexivity|].
      destruct e as [|x|]; [discriminate E | eexists; reflexivity | congruence]. }
    destruct Hint as (z & Hz). rewrite Hz.
    destruct (le beta _).
    + exists (Int z). repeat split; discriminate.
    + destruct (IH (fun m' a c Hin => Hchild m' a c (or_intror Hin))
                   (Int z) (if gt (Int r) alpha then Int r else alpha) beta)
        as (res & Hres & Hpos & Hneg); [discriminate|].
      exists res. repeat split; [exact Hres | exact Hpos |].
      intros _. destruct rest as [|m' rest'].
      * cbn [max_loop] in Hres. inversion Hres. discriminate.
      * apply Hneg. discriminate.
Qed.

Lemma min_loop_returns (child : Number -> Number -> M Z) (b : Board) :
  forall moves,
    (forall m a c, In m moves ->
       exists r, child a c (push b m) = (Ok r, push b m)) ->
    forall e alpha beta,
      e <> NegInf ->
      exists res,
        min_loop child moves e alpha beta b = (Ok res, b)
        /\ res <> NegInf /\ (moves <> [] -> res <> PosInf).
Proof.
  induction moves as [|m rest IH]; intros Hchild e alpha beta He.
  - exists e. repeat split; [exact He | congruence].
  - destruct (Hchild m alpha beta (or_introl eq_refl)) as (r & Hr).
    cbn [min_loop]. rewrite push_child_pop with (a := r) by exact Hr.
    cbv zeta.
    assert (Hint : exists z, (if lt (Int r) e then Int r else e) = Int z).
    { destruct (lt (Int r) e) eqn:E; [eexists; reflexivity|].
      destruct e as [|x|]; [congruence | eexists; reflexivity | discriminate E]. }
    destruct Hint as (z & Hz). rewrite Hz.
    destruct (le _ alpha).
    + exists (Int z). repeat split; discriminate.
    + destruct (IH (fun m' a c Hin => Hchild m' a c (or_intror Hin))
                   (Int z) alpha (if lt (Int r) beta then Int r else beta))
        as (res & Hres & Hpos & Hneg); [discriminate|].
      exists res. repeat split; [exact Hres | exact Hpos |].
      intros _. destruct rest as [|m' rest'].
      * cbn [min_loop] in Hres. inversion Hres. discriminate.
      * apply Hneg. discriminate.
Qed.

Lemma minimax_returns (fuel : nat) :
  forall (d : nat) maximizing alpha beta b,
    (d < fuel)%nat ->
    exists r, minimax fuel (Z.of_nat d) alpha beta maximizing b = (Ok r, b).
Proof.
  induction fuel as [|fuel IH]; intros d maximizing alpha beta b Hd; [lia|].
  cbn [minimax]. unfold bind at 1, ask at 1.
  destruct d as [|d].
  - eexists. reflexivity.
  - replace (Z.of_nat (S d) =? 0) with false by (symmetry; apply Z.eqb_neq; lia).
    replace (Z.of_nat (S d) - 1) with (Z.of_nat d) by lia.
    destruct (is_game_over b) eqn:Hover; [eexists; reflexivity|].
    apply not_over_has_moves in Hover.
    destruct maximizing; unfold bind, ask.
    + destruct (@max_loop_returns
                  (fun a c => minimax fuel (Z.of_nat d) a c false) b
                  (legal_moves b)) with (e := NegInf) (alpha := alpha)
                                        (beta := beta)
        as (res & Hres & Hpos & Hneg).
      * intros m a c _. apply IH. lia.
      * discriminate.
      * rewrite Hres. specialize (Hneg Hover).
        destruct res as [|z|]; [congruence | | congruence].
        exists z. reflexivity.
    + destruct (@min_loop_returns
                  (fun a c => minimax fuel (Z.of_nat d) a c true) b
                  (legal_moves b)) with (e := PosInf) (alpha := alpha)
                                        (beta := beta)
        as (res & Hres & Hpos & Hneg).
      * intros m a c _. apply IH. lia.
      * discriminate.
      * rewrite Hres. specialize (Hneg Hover).
        destruct res as [|z|]; [congruence | | congruence].
        exists z. reflexivity.
Qed.

(** [get_best_move] in closed form, for a depth of at least 1 and enough
    fuel. *)
Lemma get_best_move_choose (fuel : nat) (depth : Z) (b : Board) :
  1 <= depth <= Z.of_nat fuel ->
  get_best_move fuel depth b
  = (Ok (choose (fun m => exhaustive_value (Z.to_nat (depth - 1)) false
                                           (push b m))
                (legal_moves b) None NegInf), b).
Proof.
  intros Hd. unfold get_best_move, bind at 1, ask at 1.
  apply best_move_loop_choose. intros m _.
  replace (depth - 1) with (Z.of_nat (Z.to_nat (depth - 1))) at 1 by lia.
  apply minimax_full_window. lia.
Qed.

Lemma get_best_move_exhaustive_choose (fuel : nat) (depth : Z) (b : Board) :
  1 <= depth <= Z.of_nat fuel ->
  get_best_move_exhaustive fuel depth b
  = (Ok (choose (fun m => exhaustive_value (Z.to_nat (depth - 1)) false
                                           (push b m))
                (legal_moves b) None NegInf), b).
Proof.
  intros Hd. unfold get_best_move_exhaustive, bind at 1, ask at 1.
  apply best_move_loop_choose. intros m _.
  replace (depth - 1) with (Z.of_nat (Z.to_nat (depth - 1))) at 1 by lia.
  apply minimax_exhaustive_value. lia.
Qed.

(** What [choose] chooses: nothing new when no value exceeds the best so
    far; otherwise the first move of the largest value. *)
Lemma choose_first_largest (v : Move -> Z) :
  forall moves best_move best_value,
    (choose v moves best_move best_value = best_move
     /\ Forall (fun m => le (Int (v m)) best_value = true) moves)
    \/ exists i m,
         choose v moves best_move best_value = Some m
         /\ nth_error moves i = Some m
         /\ lt best_value (Int (v m)) = true
         /\ (forall j mj, (j < i)%nat -> nth_error moves j = Some mj ->
                          v mj < v m)
         /\ (forall j mj, nth_error moves j = Some mj -> v mj <= v m).
Proof.
  induction moves as [|m rest IH]; intros best_move best_value.
  - left. split; [reflexivity | constructor].
  - cbn [choose]. unfold gt. destruct (lt best_value (Int (v m))) eqn:Hgt.
    + right. destruct (IH (Some m) (Int (v m)))
        as [(Hsame & Hall) | (i & m' & Hres & Hnth & Hlt & Hbefore & Hmax)].
      * exists 0%nat, m. repeat split; [exact Hsame | exact Hgt | lia |].
        intros [|j] mj Hj; cbn [nth_error] in Hj.
        -- injection Hj as <-. lia.
        -- apply nth_error_In in Hj.
           rewrite Forall_forall in Hall. specialize (Hall mj Hj).
           unfold le in Hall. cbn [lt] in Hall.
           apply Bool.negb_true_iff, Z.ltb_ge in Hall. exact Hall.
      * cbn [lt] in Hlt. apply Z.ltb_lt in Hlt.
        exists (S i), m'. repeat split; [exact Hres | exact Hnth | | |].
        -- clear - Hgt Hlt. destruct best_value as [|x|];
             [reflexivity | | discriminate].
           cbn [lt] in *. apply Z.ltb_lt in Hgt. apply Z.ltb_lt. lia.
        -- intros [|j] mj Hji Hj; cbn [nth_error] in Hj.
           ++ injection Hj as <-. exact Hlt.
           ++ apply (Hbefore j); [lia | exact Hj].
        -- intros [|j] mj Hj; cbn [nth_error] in Hj.
           ++ injection Hj as <-. lia.
           ++ apply (Hmax j). exact Hj.
    + destruct (IH best_move best_value)
        as [(Hsame & Hall) | (i & m' & Hres & Hnth & Hlt & Hbefore & Hmax)].
      * left. split; [exact Hsame|]. constructor; [|exact Hall].
        unfold le. rewrite Hgt. reflexivity.
      * right. exists (S i), m'.
        assert (Hm : v m < v m').
        { clear - Hgt Hlt. destruct best_value as [|x|];
            cbn [lt] in *; try discriminate.
          apply Z.ltb_ge in Hgt. apply Z.ltb_lt in Hlt. lia. }
        repeat split; [exact Hres | exact Hnth | exact Hlt | |].
        -- intros [|j] mj Hji Hj; cbn [nth_error] in Hj.
           ++ injection Hj as <-. exact Hm.
           ++ apply (Hbefore j); [lia | exact Hj].
        -- intros [|j] mj Hj; cbn [nth_error] in Hj.
           ++ injection Hj as <-. lia.
           ++ apply (Hmax j). exact Hj.
Qed.

(** Whatever the children do, a move the loop returns is the move it started
    with or one of the moves it went through. *)
Lemma best_move_loop_member (child : M Z) :
  forall moves best_move best_value b m b',
    best_move_loop child moves best_move best_value b = (Ok (Some m), b') ->
    In m moves \/ best_move = Some m.
Proof.
  induction moves as [|m0 rest IH]; intros best_move best_value b m b' H.
  - right. cbn in H. inversion H. reflexivity.
  - cbn [best_move_loop] in H. unfold bind, board_push, board_pop in H.
    destruct (child (push b m0)) as [[a|e] b1]; [|discriminate].
    destruct (pop b1) as [b2|]; [|discriminate].
    destruct (gt (Int a) best_value); apply IH in H.
    + destruct H as [H|H]; [left; right; exact H|].
      injection H as <-. left. left. reflexivity.
    + destruct H as [H|H]; [left; right; exact H | right; exact H].
Qed.

End SearchLemmas.

(** ** The search: position integrity, pruning, choice *)

Section SearchClaims.
Context {R : Rules}.

(** C3. A call of the search that returns leaves the board exactly as it
    found it, placement, side to move and both stacks: every push has met its
    pop, also where a loop was left early.  This holds for [get_best_move] and
    for every call of [minimax], whatever the depth, the window and the fuel.
    And the calls do return: [get_best_move] for a depth of at least 1, and
    [minimax] for a depth of at least 0, within the fuel. *)
Theorem search_restores_position (fuel : nat) (depth : Z) (b : Board) :
  (forall best b', get_best_move fuel depth b = (Ok best, b') -> b' = b)
  /\ (forall alpha beta maximizing r b',
        minimax fuel depth alpha beta maximizing b = (Ok r, b') -> b' = b)
  /\ (1 <= depth <= Z.of_nat fuel ->
      exists best, get_best_move fuel depth b = (Ok best, b))
  /\ (0 <= depth < Z.of_nat fuel ->
      forall alpha beta maximizing,
      exists r, minimax fuel depth alpha beta maximizing b = (Ok r, b)).
Proof.
  repeat split.
  - intros best b'. apply get_best_move_restores.
  - intros alpha beta maximizing r b'. apply minimax_restores.
  - intros Hd. eexists. apply get_best_move_choose. exact Hd.
  - intros Hd alpha beta maximizing.
    replace depth with (Z.of_nat (Z.to_nat depth)) by lia.
    apply minimax_returns. lia.
Qed.

(** C4. For a depth of at least 1, within the fuel, the search with pruning
    and the search without it return the same move (and the same board):
    pruning never changes the choice. *)
Theorem pruning_preserves_choice (fuel : nat) (depth : Z) (b : Board) :
  1 <= depth <= Z.of_nat fuel ->
  get_best_move fuel depth b = get_best_move_exhaustive fuel depth b
  /\ exists best, get_best_move fuel depth b = (Ok best, b).
Proof.
  intros Hd. rewrite get_best_move_choose, get_best_move_exhaustive_choose
    by exact Hd.
  split; [reflexivity | eexists; reflexivity].
Qed.

(** C5. Two calls in a row return the same move.  For a depth of at least
    1 the positions after the legal moves evaluate to their exhaustive
    values, and the move returned is the first of the largest value: its
    value exceeds that of every earlier move and no move has a larger one;
    no move is returned only when there is none.  With the rules of the
    library, from the initial position at depth 1, every legal move evaluates
    to 0 and the move returned is the first one enumerated, g1h3. *)
Theorem get_best_move_first_best (fuel : nat) (depth : Z) (b : Board) :
  (forall best b',
     get_best_move fuel depth b = (Ok best, b') ->
     get_best_move fuel depth b' = (Ok best, b'))
  /\ (1 <= depth <= Z.of_nat fuel ->
      let value m :=
        exhaustive_value (Z.to_nat (depth - 1)) false (push b m) in
      (forall m, In m (legal_moves b) ->
         minimax fuel (depth - 1) NegInf PosInf false (push b m)
         = (Ok (value m), push b m))
      /\ exists best,
           get_best_move fuel depth b = (Ok best, b)
           /\ match best with
              | None => legal_moves b = []
              | Some m =>
                  exists i,
                    nth_error (legal_moves b) i = Some m
                    /\ (forall j mj, (j < i)%nat ->
                          nth_error (legal_moves b) j = Some mj ->
                          value mj < value m)
                    /\ (forall j mj,
                          nth_error (legal_moves b) j = Some mj ->
                          value mj <= value m)
              end)
  /\ (R = PythonChess.rules ->
      (1 <= fuel)%nat ->
      Forall (fun m => minimax fuel 0 NegInf PosInf false (push initial_board m)
                       = (Ok 0, push initial_board m))
             (legal_moves initial_board)
      /\ get_best_move fuel 1 initial_board
         = (Ok (hd_error (legal_moves initial_board)), initial_board)
      /\ hd_error (legal_moves initial_board) = Some (mkMove 6 23 None)%nat).
Proof.
  split; [|split].
  - intros best b' H.
    pose proof (@get_best_move_restores _ fuel depth b best b' H) as Hb.
    subst b'. exact H.
  - intros Hd value. split.
    + intros m _.
      replace (depth - 1) with (Z.of_nat (Z.to_nat (depth - 1))) at 1 by lia.
      apply minimax_full_window. lia.
    + eexists. split; [apply get_best_move_choose; exact Hd|].
      destruct (choose_first_largest value (legal_moves b) None NegInf)
        as [(Hsame & Hall) | (i & m & Hres & Hnth & _ & Hbefore & Hmax)].
      * fold value. rewrite Hsame.
        destruct (legal_moves b) as [|m rest]; [reflexivity|].
        inversion Hall as [|? ? Hm]. discriminate Hm.
      * fold value. rewrite Hres. exists i. repeat split; assumption.
  - intros -> Hfuel.
    assert (Hzero : forallb (fun m => evaluate_board
                                        (@push PythonChess.rules initial_board m)
                                      =? 0)
                            (@legal_moves PythonChess.rules initial_board)
                    = true)
      by (vm_compute; reflexivity).
    rewrite forallb_forall in Hzero.
    split; [|split].
    + apply Forall_forall. intros m Hm. apply Hzero, Z.eqb_eq in Hm.
      destruct fuel as [|fuel]; [lia|].
      cbn [minimax]. unfold bind, ask. cbn [Z.eqb]. rewrite Hm. reflexivity.
    + rewrite get_best_move_choose by lia.
      vm_compute. reflexivity.
    + vm_compute. reflexivity.
Qed.

(** C6. Without a legal move [get_best_move] returns None, at every depth
    (in particular every depth of at least 1) and whatever the fuel, and
    leaves the board as it is. *)
Theorem no_legal_move_no_best_move (fuel : nat) (depth : Z) (b : Board) :
  legal_moves b = [] ->
  get_best_move fuel depth b = (Ok None, b).
Proof.
  intros H. unfold get_best_move, bind, ask. rewrite H. reflexivity.
Qed.

(** C7. A move that [get_best_move] returns is one of the legal moves of the
    position it was called on. *)
Theorem best_move_is_legal (fuel : nat) (depth : Z) (b b' : Board) (m : Move) :
  get_best_move fuel depth b = (Ok (Some m), b') ->
  In m (legal_moves b).
Proof.
  unfold get_best_move, bind at 1, ask at 1. intros H.
  apply best_move_loop_member in H. destruct H as [H|H]; [exact H|discriminate].
Qed.

End SearchClaims.

(** ** The game session *)

Section SessionClaims.
Context {R : Rules}.

Lemma phase_awaiting_destination (s : Session) :
  phase s = AwaitingHumanDestinationSelection ->
  running s = true
  /\ is_game_over (board s) = false
  /\ color_eqb (board_turn (board s)) player_color = true
  /\ exists origin, selected_square s = Some origin.
Proof.
  unfold phase. destruct (running s); cbn [negb orb]; [|discriminate].
  destruct (is_game_over (board s)); [discriminate|].
  destruct (color_eqb (board_turn (board s)) player_color); [|discriminate].
  destruct (selected_square s) as [origin|]; [|discriminate].
  intros _. repeat split. exists origin. reflexivity.
Qed.

(** A frame in which the human's one click changes nothing on the board. *)
Lemma frame_click_board_kept (s : Session) (x y : Z) :
  running s = true ->
  is_game_over (board s) = false ->
  color_eqb (board_turn (board s)) player_color = true ->
  on_click x y s = mkSession (board s) (running s) None ->
  frame [MOUSEBUTTONDOWN x y] s = (Ok (mkSession (board s) true None), [])
  /\ phase (mkSession (board s) true None) = AwaitingHumanOriginSelection.
Proof.
  intros Hrun Hover Hturn Hclick. unfold frame, ai_move, end_detection, phase.
  cbn [handle_events]. rewrite Hturn, Hclick, Hrun. cbn [board running selected_square].
  rewrite Hturn, Hover. cbn [negb andb orb board]. rewrite Hover.
  split; reflexivity.
Qed.

(** C8. While a destination is awaited, the pending origin a square of the
    board, a click inside the window whose move is not legal applies no
    move: the board is unchanged, the pending origin is cleared and the
    clicked square is not taken as a new origin; the frame searches nothing,
    leaves the loop running and ends awaiting an origin. *)
Theorem illegal_destination_discarded (s : Session) (origin : Square)
    (x y : Z) :
  0 <= x < WIDTH -> 0 <= y < HEIGHT ->
  phase s = AwaitingHumanDestinationSelection ->
  selected_square s = Some origin ->
  (origin < 64)%nat ->
  is_legal (board s) (mkMove origin (clicked_square x y) None) = false ->
  on_click x y s = mkSession (board s) (running s) None
  /\ frame [MOUSEBUTTONDOWN x y] s = (Ok (mkSession (board s) true None), [])
  /\ phase (mkSession (board s) true None) = AwaitingHumanOriginSelection.
Proof.
  intros _ _ Hphase Hsel _ Hillegal.
  destruct (phase_awaiting_destination s Hphase) as (Hrun & Hover & Hturn & _).
  assert (Hclick : on_click x y s = mkSession (board s) (running s) None).
  { unfold on_click. rewrite Hsel. fold (clicked_square x y).
    rewrite Hillegal. reflexivity. }
  split; [exact Hclick|].
  apply frame_click_board_kept; assumption.
Qed.

Lemma frame_searched_not_over (events : list Event) (s : Session)
    (r : Result Session) (searched : list Board) (b : Board) :
  frame events s = (r, searched) -> In b searched -> is_game_over b = false.
Proof.
  unfold frame, ai_move.
  destruct (negb (color_eqb (board_turn (board (handle_events events s)))
                            player_color)
            && negb (is_game_over (board (handle_events events s))))
    eqn:Hguard.
  - apply andb_true_iff in Hguard. destruct Hguard as (_ & Hover).
    apply negb_true_iff in Hover.
    destruct (get_best_move recursion_limit ai_depth
                            (board (handle_events events s)))
      as [[[move|]|e] board'];
      intros H; inversion H; subst; intros [<-|[]]; exact Hover.
  - intros H. inversion H. intros [].
Qed.

Lemma run_searched_not_over (frames : list (list Event)) :
  forall s r searched b,
    run frames s = (r, searched) -> In b searched -> is_game_over b = false.
Proof.
  induction frames as [|events rest IH]; intros s r searched b;
    cbn [run].
  - intros H. inversion H. intros [].
  - destruct (running s); [|intros H; inversion H; intros []].
    destruct (frame events s) as [[s'|e] first] eqn:Hframe.
    + destruct (run rest s') as [r' later] eqn:Hrest.
      intros H. inversion H. subst. intros Hin.
      apply in_app_or in Hin. destruct Hin as [Hin|Hin].
      * eapply frame_searched_not_over; eassumption.
      * eapply IH; eassumption.
    + intros H. inversion H. subst.
      eapply frame_searched_not_over; eassumption.
Qed.

(** C9. However [main] is driven, every position it calls the search on is
    one where the game is not over; the same holds of a frame from any state
    of the session, reachable or not.  When the events of a frame, its
    clicks inside the window, leave the engine to move in a position where
    the game is over, the frame searches nothing and its end detection stops
    the loop: it ends with the position as it is and [running] false, which
    is the terminal state. *)
Theorem search_skipped_on_terminal (s : Session) (events : list Event) :
  (forall frames r searched b,
     main frames = (r, searched) -> In b searched -> is_game_over b = false)
  /\ (forall r searched b,
        frame events s = (r, searched) -> In b searched ->
        is_game_over b = false)
  /\ (Forall click_in_window events ->
      origin_on_board s ->
      color_eqb (board_turn (board (handle_events events s))) player_color
      = false ->
      is_game_over (board (handle_events events s)) = true ->
      exists s',
        frame events s = (Ok s', [])
        /\ board s' = board (handle_events events s)
        /\ selected_square s' = selected_square (handle_events events s)
        /\ running s' = false
        /\ phase s' = Terminal).
Proof.
  split; [|split].
  - intros frames. apply run_searched_not_over.
  - apply frame_searched_not_over.
  - intros _ _ Hturn Hover. unfold frame, ai_move, end_detection.
    rewrite Hturn, Hover. cbn [negb andb]. rewrite Hover.
    eexists. split; [reflexivity|]. split; [reflexivity|].
    split; [reflexivity|]. split; [reflexivity|].
    unfold phase. reflexivity.
Qed.

(** C10. A click inside the window, the pending origin a square of the
    board, commits either nothing or a move built without a promotion piece.
    So while a destination is awaited with a pawn of the human on the
    pending origin, if every legal move from the origin to the clicked square
    carries a promotion piece, the click applies no move: the board is
    unchanged, the pending origin is cleared and the frame searches
    nothing. *)
Theorem promotion_click_commits_nothing (s : Session) (x y : Z) :
  0 <= x < WIDTH -> 0 <= y < HEIGHT ->
  origin_on_board s ->
  (board (on_click x y s) = board s
   \/ exists origin,
        selected_square s = Some origin
        /\ board (on_click x y s)
           = push (board s) (mkMove origin (clicked_square x y) None))
  /\ forall origin,
       phase s = AwaitingHumanDestinationSelection ->
       selected_square s = Some origin ->
       piece_at (board s) origin = Some (mkPiece PAWN player_color) ->
       (forall m, is_legal (board s) m = true ->
                  from_square m = origin ->
                  to_square m = clicked_square x y ->
                  promotion m <> None) ->
       on_click x y s = mkSession (board s) (running s) None
       /\ frame [MOUSEBUTTONDOWN x y] s
          = (Ok (mkSession (board s) true None), []).
Proof.
  intros _ _ _. split.
  - unfold on_click. cbv zeta.
    destruct (selected_square s) as [origin|].
    + destruct (is_legal (board s) _); [|left; reflexivity].
      right. exists origin. split; reflexivity.
    + left. destruct (piece_at (board s) _) as [piece|]; [|reflexivity].
      destruct (color_eqb (color piece) player_color); reflexivity.
  - intros origin Hphase Hsel _ Hpromotion.
    destruct (phase_awaiting_destination s Hphase) as (Hrun & Hover & Hturn & _).
    assert (Hillegal :
              is_legal (board s) (mkMove origin (clicked_square x y) None)
              = false).
    { destruct (is_legal (board s) _) eqn:E; [|reflexivity].
      exfalso. apply (Hpromotion _ E); reflexivity. }
    assert (Hclick : on_click x y s = mkSession (board s) (running s) None).
    { unfold on_click. rewrite Hsel. cbv zeta. rewrite Hillegal. reflexivity. }
    split; [exact Hclick|].
    apply frame_click_board_kept; assumption.
Qed.

End SessionClaims.

(** * Further properties *)

(** ** The search *)

Section SearchExtras.
Context {R : Rules}.

(** X1. The alpha-beta contract of [minimax]: for a depth of at least 0 within
    the fuel and a window with [alpha < beta], the call returns on the board
    it was given, and its result is within the window of the exhaustive value:
    at or below [alpha] it bounds that value from above, at or above [beta]
    from below, and strictly inside the window it is that value. *)
Theorem minimax_respects_window (fuel : nat) (depth : Z)
    (alpha beta : Number) (maximizing : bool) (b : Board) :
  0 <= depth < Z.of_nat fuel ->
  lt alpha beta = true ->
  exists r,
    minimax fuel depth alpha beta maximizing b = (Ok r, b)
    /\ let v := exhaustive_value (Z.to_nat depth) maximizing b in
       (le (Int r) alpha = true -> v <= r)
       /\ (le beta (Int r) = true -> r <= v)
       /\ (lt alpha (Int r) = true -> lt (Int r) beta = true -> r = v).
Proof.
  intros Hd Hlt.
  destruct (@minimax_within _ fuel (Z.to_nat depth) maximizing alpha beta b)
    as (r & Hr & Hlow & Hhigh & Hin); [lia | exact Hlt |].
  rewrite Z2Nat.id in Hr by lia.
  exists r. split; [exact Hr|]. cbv zeta. repeat split.
  - intros H. specialize (Hlow H). unfold le in Hlow. cbn [lt] in Hlow.
    apply negb_true_iff, Z.ltb_ge in Hlow. exact Hlow.
  - intros H. specialize (Hhigh H). unfold le in Hhigh. cbn [lt] in Hhigh.
    apply negb_true_iff, Z.ltb_ge in Hhigh. exact Hhigh.
  - intros H1 H2. specialize (Hin H1 H2). injection Hin as Hin. exact Hin.
Qed.

(** A loop that returns has seen a move or returns what it started with;
    it never returns an infinity once a move was evaluated. *)
Lemma max_loop_result (child : Number -> Number -> M Z) :
  forall moves e alpha beta b res b',
    max_loop child moves e alpha beta b = (Ok res, b') ->
    e <> PosInf ->
    res <> PosInf /\ (moves <> [] \/ e <> NegInf -> res <> NegInf).
Proof.
  induction moves as [|m rest IH]; intros e alpha beta b res b' H He.
  - cbn in H. inversion H. subst. split; [exact He|].
    intros [Hm|Hn]; [congruence | exact Hn].
  - cbn [max_loop] in H. unfold bind, board_push, board_pop in H.
    destruct (child alpha beta (push b m)) as [[r|x] b1]; [|discriminate].
    destruct (pop b1) as [b2|]; [|discriminate].
    assert (Hint : exists z, (if gt (Int r) e then Int r else e) = Int z).
    { destruct (gt (Int r) e) eqn:E; [eexists; reflexivity|].
      destruct e as [|x|]; [discriminate E | eexists; reflexivity | congruence]. }
    destruct Hint as (z & Hz). rewrite Hz in H.
    destruct (le beta _).
    + inversion H. split; [discriminate | intros _; discriminate].
    + apply IH in H; [|discriminate]. destruct H as (Hpos & Hneg).
      split; [exact Hpos|]. intros _. apply Hneg. right. discriminate.
Qed.

Lemma min_loop_result (child : Number -> Number -> M Z) :
  forall moves e alpha beta b res b',
    min_loop child moves e alpha beta b = (Ok res, b') ->
    e <> NegInf ->
    res <> NegInf /\ (moves <> [] \/ e <> PosInf -> res <> PosInf).
Proof.
  induction moves as [|m rest IH]; intros e alpha beta b res b' H He.
  - cbn in H. inversion H. subst. split; [exact He|].
    intros [Hm|Hn]; [congruence | exact Hn].
  - cbn [min_loop] in H. unfold bind, board_push, board_pop in H.
    destruct (child alpha beta (push b m)) as [[r|x] b1]; [|discriminate].
    destruct (pop b1) as [b2|]; [|discriminate].
    assert (Hint : exists z, (if lt (Int r) e then Int r else e) = Int z).
    { destruct (lt (Int r) e) eqn:E; [eexists; reflexivity|].
      destruct e as [|x|]; [congruence | eexists; reflexivity | discriminate E]. }
    destruct Hint as (z & Hz). rewrite Hz in H.
    destruct (le _ alpha).
    + inversion H. split; [discriminate | intros _; discriminate].
    + apply IH in H; [|discriminate]. destruct H as (Hpos & Hneg).
      split; [exact Hpos|]. intros _. apply Hneg. right. discriminate.
Qed.

(** A computation that raises nothing but RecursionError. *)
Lemma iteration_raises {A B} (child : M A) (k : A -> M B) (m : Move) :
  restores child ->
  (forall b e b', child b = (Raise e, b') -> e = RecursionError) ->
  (forall a b e b', k a b = (Raise e, b') -> e = RecursionError) ->
  forall b e b',
    bind (board_push m)
         (fun _ => bind child (fun x => bind board_pop (fun _ => k x))) b
    = (Raise e, b') ->
    e = RecursionError.
Proof.
  intros Hrestores Hchild Hk b e b'. unfold bind, board_push, board_pop.
  destruct (child (push b m)) as [[a|x] b1] eqn:E.
  - apply Hrestores in E. subst b1. rewrite pop_push. apply Hk.
  - intros H. inversion H. subst. eapply Hchild. exact E.
Qed.

Lemma max_loop_raises (child : Number -> Number -> M Z) :
  (forall alpha beta, restores (child alpha beta)) ->
  (forall alpha beta b e b',
     child alpha beta b = (Raise e, b') -> e = RecursionError) ->
  forall moves max_eval alpha beta b e b',
    max_loop child moves max_eval alpha beta b = (Raise e, b') ->
    e = RecursionError.
Proof.
  intros Hrestores Hchild.
  induction moves as [|m rest IH]; intros max_eval alpha beta.
  - intros b e b' H. discriminate.
  - cbn [max_loop]. apply iteration_raises; [apply Hrestores | apply Hchild |].
    intros a b e b'. cbv zeta. destruct (le beta _); [discriminate | apply IH].
Qed.

Lemma min_loop_raises (child : Number -> Number -> M Z) :
  (forall alpha beta, restores (child alpha beta)) ->
  (forall alpha beta b e b',
     child alpha beta b = (Raise e, b') -> e = RecursionError) ->
  forall moves min_eval alpha beta b e b',
    min_loop child moves min_eval alpha beta b = (Raise e, b') ->
    e = RecursionError.
Proof.
  intros Hrestores Hchild.
  induction moves as [|m rest IH]; intros min_eval alpha beta.
  - intros b e b' H. discriminate.
  - cbn [min_loop]. apply iteration_raises; [apply Hrestores | apply Hchild |].
    intros a b e b'. cbv zeta. destruct (le _ alpha); [discriminate | apply IH].
Qed.

Lemma minimax_raises (fuel : nat) :
  forall depth alpha beta maximizing b e b',
    minimax fuel depth alpha beta maximizing b = (Raise e, b') ->
    e = RecursionError.
Proof.
  induction fuel as [|fuel IH]; intros depth alpha beta maximizing b e b'.
  - intros H. inversion H. reflexivity.
  - cbn [minimax]. unfold bind at 1, ask at 1.
    destruct (if depth =? 0 then true else is_game_over b) eqn:Hstop;
      [discriminate|].
    assert (Hmoves : legal_moves b <> []).
    { apply not_over_has_moves. destruct (depth =? 0); [discriminate|exact Hstop]. }
    destruct maximizing; unfold bind, ask.
    + destruct (max_loop _ (legal_moves b) NegInf alpha beta b)
        as [[res|x] b1] eqn:E.
      * apply max_loop_result in E; [|discriminate]. destruct E as (Hpos & Hneg).
        destruct res as [|z|]; [|discriminate|congruence].
        exfalso. apply Hneg; [left; exact Hmoves | reflexivity].
      * intros H. inversion H. subst.
        eapply max_loop_raises; [| |exact E].
        -- intros a c. apply minimax_restores.
        -- intros a c. apply IH.
    + destruct (min_loop _ (legal_moves b) PosInf alpha beta b)
        as [[res|x] b1] eqn:E.
      * apply min_loop_result in E; [|discriminate]. destruct E as (Hneg & Hpos).
        destruct res as [|z|]; [congruence|discriminate|].
        exfalso. apply Hpos; [left; exact Hmoves | reflexivity].
      * intros H. inversion H. subst.
        eapply min_loop_raises; [| |exact E].
        -- intros a c. apply minimax_restores.
        -- intros a c. apply IH.
Qed.

Lemma best_move_loop_raises (child : M Z) :
  restores child ->
  (forall b e b', child b = (Raise e, b') -> e = RecursionError) ->
  forall moves best_move best_value b e b',
    best_move_loop child moves best_move best_value b = (Raise e, b') ->
    e = RecursionError.
Proof.
  intros Hrestores Hchild.
  induction moves as [|m rest IH]; intros best_move best_value.
  - intros b e b' H. discriminate.
  - cbn [best_move_loop].
    apply iteration_raises; [exact Hrestores | exact Hchild |].
    intros a b e b'. destruct (gt _ _); apply IH.
Qed.

(** X2. The only exception the search can raise is RecursionError: [int] is
    never applied to an infinity, because a loop entered on a position where
    the game goes on evaluates at least one move, and [pop] never meets an
    empty stack.  This holds at every depth, for every window and fuel. *)
Theorem search_raises_only_recursion_error (fuel : nat) (depth : Z)
    (b b' : Board) (e : Exception) :
  (forall alpha beta maximizing,
     minimax fuel depth alpha beta maximizing b = (Raise e, b') ->
     e = RecursionError)
  /\ (get_best_move fuel depth b = (Raise e, b') -> e = RecursionError).
Proof.
  split.
  - intros alpha beta maximizing. apply minimax_raises.
  - unfold get_best_move, bind at 1, ask at 1.
    apply best_move_loop_raises.
    + apply minimax_restores.
    + intros x y z. apply minimax_raises.
Qed.

Lemma evaluate_board_advantage (b : Board) :
  evaluate_board b = advantage b (board_turn b).
Proof.
  unfold evaluate_board, advantage, material, pieces.
  rewrite !(material_by_kind _ _ 0%nat).
  unfold PIECE_VALUES, board_turn. cbn [fold_left].
  destruct (turn (state b)); cbn [opposite]; lia.
Qed.

Lemma advantage_opposite (b : Board) (c : Color) :
  advantage b (opposite c) = - advantage b c.
Proof. unfold advantage. destruct c; cbn [opposite]; lia. Qed.

(** X3. At depth 1 the move returned leaves the side that moves with the
    smallest material advantage any legal move leaves it: each position after
    a move is evaluated for the side then to move, the opponent, and the loop
    keeps the largest of these values.  The hypothesis is that the legal
    moves pass the turn. *)
Theorem depth_1_least_advantage (fuel : nat) (b b' : Board) (m : Move) :
  (forall x, In x (legal_moves b) ->
             board_turn (push b x) = opposite (board_turn b)) ->
  (1 <= fuel)%nat ->
  get_best_move fuel 1 b = (Ok (Some m), b') ->
  forall m', In m' (legal_moves b) ->
             advantage (push b m) (board_turn b)
             <= advantage (push b m') (board_turn b).
Proof.
  intros Hturn Hfuel H.
  rewrite get_best_move_choose in H by lia.
  change (Z.to_nat (1 - 1)) with 0%nat in H. cbn [exhaustive_value] in H.
  destruct (choose_first_largest (fun x => evaluate_board (push b x))
                                 (legal_moves b) None NegInf)
    as [(Hnone & _) | (i & m0 & Hres & Hnth & _ & _ & Hmax)].
  - rewrite Hnone in H. discriminate H.
  - rewrite Hres in H. injection H as -> _.
    apply nth_error_In in Hnth.
    intros m' Hin. destruct (In_nth_error _ _ Hin) as (j & Hj).
    specialize (Hmax j m' Hj).
    rewrite !evaluate_board_advantage, !Hturn, !advantage_opposite in Hmax
      by assumption.
    lia.
Qed.

End SearchExtras.

(** Under the rules of the library every move passes the turn. *)
Lemma python_chess_turn_passes : turn_passes PythonChess.rules.
Proof.
  intros b m. unfold push, board_turn. cbn [state Chess.play PythonChess.rules].
  unfold PythonChess.play.
  destruct (PythonChess.is_null _); [reflexivity|].
  destruct (PythonChess.piece_type_at _ _); reflexivity.
Qed.

(** ** The game loop *)

Section SessionExtras.
Context {R : Rules}.

Lemma color_eqb_eq (a b : Color) : color_eqb a b = true <-> a = b.
Proof. destruct a, b; cbn; split; congruence. Qed.

Lemma color_eqb_neq (a b : Color) : color_eqb a b = false <-> a <> b.
Proof. destruct a, b; cbn; split; congruence. Qed.

Lemma ai_depth_within_limit : 1 <= ai_depth <= Z.of_nat recursion_limit.
Proof. vm_compute. split; discriminate. Qed.

(** With a legal move to choose from, the loop of [get_best_move] ends with
    one of them. *)
Lemma choose_some (v : Move -> Z) (moves : list Move) :
  moves <> [] ->
  exists m, choose v moves None NegInf = Some m /\ In m moves.
Proof.
  intros Hmoves.
  destruct (choose_first_largest v moves None NegInf)
    as [(_ & Hall) | (i & m & Hres & Hnth & _)].
  - destruct moves as [|m rest]; [contradiction|].
    inversion Hall as [|? ? Hm]. discriminate Hm.
  - exists m. split; [exact Hres|]. eapply nth_error_In. exact Hnth.
Qed.

(** The engine's part of a frame, case by case. *)
Lemma ai_move_cases (s : Session) :
  (ai_move s = (Ok s, [])
   /\ (board_turn (board s) = player_color \/ is_game_over (board s) = true))
  \/ (exists reply,
        board_turn (board s) <> player_color
        /\ is_game_over (board s) = false
        /\ In reply (legal_moves (board s))
        /\ ai_move s
           = (Ok (mkSession (push (board s) reply) (running s)
                            (selected_square s)),
              [board s])).
Proof.
  unfold ai_move.
  destruct (color_eqb (board_turn (board s)) player_color) eqn:Hturn;
    cbn [negb andb].
  - left. split; [reflexivity|]. left. apply color_eqb_eq. exact Hturn.
  - destruct (is_game_over (board s)) eqn:Hover; cbn [negb].
    + left. split; [reflexivity|]. right. reflexivity.
    + right. rewrite get_best_move_choose by exact ai_depth_within_limit.
      destruct (choose_some
                  (fun m => exhaustive_value (Z.to_nat (ai_depth - 1)) false
                                             (push (board s) m))
                  (not_over_has_moves _ Hover)) as (reply & Hreply & Hin).
      rewrite Hreply. exists reply. repeat split; try assumption.
      apply color_eqb_neq. exact Hturn.
Qed.

Lemma frame_cases (events : list Event) (s : Session) :
  let s1 := handle_events events s in
  (frame events s = (Ok (end_detection s1), [])
   /\ (board_turn (board s1) = player_color
       \/ is_game_over (board s1) = true))
  \/ (exists reply,
        board_turn (board s1) <> player_color
        /\ is_game_over (board s1) = false
        /\ In reply (legal_moves (board s1))
        /\ frame events s
           = (Ok (end_detection
                    (mkSession (push (board s1) reply) (running s1)
                               (selected_square s1))),
              [board s1])).
Proof.
  cbv zeta. unfold frame.
  destruct (ai_move_cases (handle_events events s))
    as [(H & Hwhy) | (reply & Hturn & Hover & Hin & H)]; rewrite H.
  - left. split; [reflexivity | exact Hwhy].
  - right. exists reply. repeat split; assumption.
Qed.

Lemma end_detection_fields (s : Session) :
  board (end_detection s) = board s
  /\ selected_square (end_detection s) = selected_square s
  /\ running (end_detection s)
     = running s && negb (is_game_over (board s)).
Proof.
  unfold end_detection. destruct (is_game_over (board s));
    cbn [board selected_square running negb]; repeat split;
    destruct (running s); reflexivity.
Qed.

Lemma handle_events_running (events : list Event) :
  forall s, running (handle_events events s) = true -> running s = true.
Proof.
  induction events as [|[|x y|] rest IH]; intros s; cbn [handle_events].
  - trivial.
  - discriminate.
  - destruct (color_eqb _ _); intros H; apply IH in H; [|exact H].
    unfold on_click in H. cbv zeta in H.
    destruct (selected_square s).
    + destruct (is_legal _ _); exact H.
    + destruct (piece_at _ _) as [p|]; [|exact H].
      destruct (color_eqb (color p) _); exact H.
  - apply IH.
Qed.

(** A frame returns; it keeps the loop running only if it was running and
    the game is not over on the board it leaves. *)
Lemma frame_returns (events : list Event) (s : Session) :
  exists s' searched,
    frame events s = (Ok s', searched)
    /\ (running s' = true ->
        running s = true /\ is_game_over (board s') = false).
Proof.
  destruct (frame_cases events s)
    as [(H & _) | (reply & _ & _ & _ & H)]; rewrite H;
    eexists; eexists; (split; [reflexivity|]);
    intros Hrun;
    match type of Hrun with
    | running (end_detection ?x) = true =>
        destruct (end_detection_fields x) as (Hb & _ & Hr)
    end;
    rewrite Hr in Hrun; apply andb_true_iff in Hrun;
    destruct Hrun as (Hrun & Hover); apply negb_true_iff in Hover;
    rewrite Hb; (split; [|exact Hover]);
    apply (handle_events_running events); exact Hrun.
Qed.

Lemma run_stopped (frames : list (list Event)) (s : Session) :
  running s = false -> run frames s = (Ok s, []).
Proof. intros H. destruct frames; cbn [run]; [|rewrite H]; reflexivity. Qed.

(** Once the loop has stopped, frames that follow change nothing. *)
Lemma run_app_stopped (first : list (list Event)) :
  forall later s s1 searched,
    run first s = (Ok s1, searched) ->
    running s1 = false ->
    run (first ++ later) s = (Ok s1, searched).
Proof.
  induction first as [|events rest IH]; intros later s s1 searched H Hstop.
  - cbn [run] in H. inversion H. subst. cbn [app]. apply run_stopped, Hstop.
  - cbn [app run] in *. destruct (running s) eqn:Hrun; [|exact H].
    destruct (frame events s) as [[s'|e] l]; [|discriminate].
    destruct (run rest s') as [r l'] eqn:Hrest. inversion H. subst.
    rewrite (IH later _ _ _ Hrest Hstop). reflexivity.
Qed.

(** What holds at the start and is kept by every frame holds where [run]
    ends. *)
Lemma run_invariant (P : Session -> Prop) :
  (forall events s s' searched,
     P s -> running s = true -> frame events s = (Ok s', searched) -> P s') ->
  forall frames s s' searched,
    P s -> run frames s = (Ok s', searched) -> P s'.
Proof.
  intros Hframe. induction frames as [|events rest IH];
    intros s s' searched Hs H; cbn [run] in H.
  - inversion H. subst. exact Hs.
  - destruct (running s) eqn:Hrun; [|inversion H; subst; exact Hs].
    destruct (frame events s) as [[s1|e] l] eqn:Hf; [|discriminate].
    destruct (run rest s1) as [r l'] eqn:Hrest. inversion H. subst.
    eapply IH; [|exact Hrest]. eapply Hframe; eassumption.
Qed.

Lemma run_returns (frames : list (list Event)) :
  forall s, exists s' searched, run frames s = (Ok s', searched).
Proof.
  induction frames as [|events rest IH]; intros s; cbn [run].
  - eexists. eexists. reflexivity.
  - destruct (running s); [|eexists; eexists; reflexivity].
    destruct (frame_returns events s) as (s1 & l & Hf & _). rewrite Hf.
    destruct (IH s1) as (s' & l' & Hrest). rewrite Hrest.
    eexists. eexists. reflexivity.
Qed.

(** X4. With every click inside the window, [main] does not raise: at the
    depth it searches, 2, the search stays within the recursion limit.
    After at least one frame the loop is still running only if the game is
    not over on the board; and once it has stopped, on the end of the game or
    on QUIT, whatever events follow change neither the session nor what was
    searched. *)
Theorem main_returns_and_stops (frames : list (list Event)) :
  Forall (Forall click_in_window) frames ->
  exists s searched,
    main frames = (Ok s, searched)
    /\ (frames <> [] -> running s = true -> is_game_over (board s) = false)
    /\ (running s = false ->
        forall later, main (frames ++ later) = (Ok s, searched)).
Proof.
  intros _. unfold main.
  destruct (run_returns frames (mkSession initial_board true None))
    as (s & searched & Hrun).
  exists s, searched. split; [exact Hrun|]. split.
  - intros Hframes.
    destruct frames as [|events rest]; [contradiction|].
    cbn [run running] in Hrun.
    destruct (frame_returns events (mkSession initial_board true None))
      as (s1 & l & Hf & Hkeep). rewrite Hf in Hrun.
    destruct (run rest s1) as [r l'] eqn:Hrest. inversion Hrun. subst.
    apply (run_invariant
             (fun x => running x = true -> is_game_over (board x) = false))
      with (frames := rest) (s := s1) (searched := l'); [| |exact Hrest].
    + intros ev x x' l0 _ _ Hx Hx'.
      destruct (frame_returns ev x) as (x2 & l2 & Hf2 & Hkeep2).
      rewrite Hf2 in Hx. inversion Hx. subst. apply Hkeep2, Hx'.
    + intros H1. apply Hkeep, H1.
  - intros Hstop later. apply run_app_stopped; assumption.
Qed.

Lemma on_click_sound (x y : Z) (s : Session) :
  board_turn (board s) = player_color ->
  selection_sound (on_click x y s).
Proof.
  intros Hturn sq. unfold on_click. cbv zeta.
  destruct (selected_square s) as [origin|] eqn:Hsel.
  - destruct (is_legal _ _); cbn [selected_square]; discriminate.
  - destruct (piece_at (board s) (clicked_square x y)) as [p|] eqn:Hp.
    + destruct (color_eqb (color p) player_color) eqn:Hc.
      * cbn [selected_square board]. intros H. injection H as <-.
        split; [exact Hturn|]. exists p. split; [exact Hp|].
        apply color_eqb_eq. exact Hc.
      * rewrite Hsel. discriminate.
    + rewrite Hsel. discriminate.
Qed.

Lemma handle_events_sound (events : list Event) :
  forall s, selection_sound s -> selection_sound (handle_events events s).
Proof.
  induction events as [|[|x y|] rest IH]; intros s Hs; cbn [handle_events].
  - exact Hs.
  - exact Hs.
  - destruct (color_eqb (board_turn (board s)) player_color) eqn:Hturn.
    + apply IH, on_click_sound, color_eqb_eq, Hturn.
    + apply IH, Hs.
  - apply IH, Hs.
Qed.

Lemma frame_sound (events : list Event) (s s' : Session)
    (searched : list Board) :
  selection_sound s ->
  frame events s = (Ok s', searched) ->
  selection_sound s'.
Proof.
  intros Hs Hf. apply (handle_events_sound events) in Hs.
  destruct (frame_cases events s)
    as [(H & _) | (reply & Hturn & _ & _ & H)];
    rewrite H in Hf; inversion Hf; subst; clear Hf; intros sq Hsq.
  - destruct (end_detection_fields (handle_events events s)) as (Hb & Hsel & _).
    rewrite Hsel in Hsq. rewrite Hb. apply Hs, Hsq.
  - match type of Hsq with
    | selected_square (end_detection ?x) = _ =>
        destruct (end_detection_fields x) as (_ & Hsel & _)
    end.
    rewrite Hsel in Hsq. cbn [selected_square] in Hsq.
    exfalso. apply Hturn. apply (Hs sq Hsq).
Qed.

(** X5. However [main] is driven, a pending origin is a square that holds a
    piece of the human, and it is the human's turn: the origin is recorded
    only on such a square, and every move, the human's or the engine's,
    leaves no origin pending. *)
Theorem selected_square_holds_own_piece (frames : list (list Event))
    (s : Session) (searched : list Board) (sq : Square) :
  main frames = (Ok s, searched) ->
  selected_square s = Some sq ->
  board_turn (board s) = player_color
  /\ exists p, piece_at (board s) sq = Some p /\ color p = player_color.
Proof.
  intros Hmain. revert sq. change (selection_sound s).
  eapply (run_invariant selection_sound); [| |exact Hmain].
  - intros events x x' l Hx _ Hf. eapply frame_sound; eassumption.
  - intros sq H. discriminate H.
Qed.

Lemma handle_events_off_turn (events : list Event) (s : Session) :
  board_turn (board s) <> player_color ->
  board (handle_events events s) = board s
  /\ selected_square (handle_events events s) = selected_square s.
Proof.
  intros Hturn. apply color_eqb_neq in Hturn.
  induction events as [|[|x y|] rest IH]; cbn [handle_events].
  - split; reflexivity.
  - split; reflexivity.
  - rewrite Hturn. exact IH.
  - exact IH.
Qed.

Lemma opposite_neq (c : Color) : opposite c <> c.
Proof. destruct c; discriminate. Qed.

(** Under rules that pass the turn, the events of a frame apply at most one
    move of the human. *)
Lemma handle_events_one_move (Hpass : turn_passes R) (events : list Event) :
  forall s,
    board_turn (board s) = player_color ->
    board (handle_events events s) = board s
    \/ exists m,
         is_legal (board s) m = true
         /\ promotion m = None
         /\ board (handle_events events s) = push (board s) m
         /\ selected_square (handle_events events s) = None.
Proof.
  induction events as [|[|x y|] rest IH]; intros s Hturn; cbn [handle_events].
  - left. reflexivity.
  - left. reflexivity.
  - rewrite (proj2 (color_eqb_eq _ _) Hturn).
    unfold on_click. cbv zeta.
    destruct (selected_square s) as [origin|].
    + destruct (is_legal (board s) _) eqn:Hlegal.
      * right. exists (mkMove origin (clicked_square x y) None).
        split; [exact Hlegal|]. split; [reflexivity|].
        apply handle_events_off_turn. cbn [board].
        rewrite Hpass, Hturn. apply opposite_neq.
      * apply (IH (mkSession (board s) (running s) None)). exact Hturn.
    + destruct (piece_at _ _) as [p|]; [|apply IH; exact Hturn].
      destruct (color_eqb (color p) _); [|apply IH; exact Hturn].
      apply (IH (mkSession (board s) (running s) (Some (clicked_square x y)))).
      exact Hturn.
  - apply IH. exact Hturn.
Qed.

Lemma frame_moves (events : list Event) (s : Session) :
  turn_passes R ->
  board_turn (board s) = player_color ->
  exists s',
    (frame events s = (Ok s', []) /\ board s' = board s)
    \/ (exists m,
          is_legal (board s) m = true
          /\ frame events s = (Ok s', [])
          /\ board s' = push (board s) m
          /\ is_game_over (board s') = true
          /\ running s' = false)
    \/ (exists m reply,
          is_legal (board s) m = true
          /\ In reply (legal_moves (push (board s) m))
          /\ frame events s = (Ok s', [push (board s) m])
          /\ board s' = push (push (board s) m) reply).
Proof.
  intros Hpass Hturn.
  destruct (handle_events_one_move Hpass events s Hturn)
    as [Hsame | (m & Hlegal & _ & Hpush & _)];
    destruct (frame_cases events s)
      as [(Hf & Hwhy) | (reply & Hnot & Hover & Hin & Hf)];
    rewrite Hf.
  - eexists. left. split; [reflexivity|].
    rewrite (proj1 (end_detection_fields _)). exact Hsame.
  - exfalso. apply Hnot. rewrite Hsame. exact Hturn.
  - destruct (end_detection_fields (handle_events events s)) as (Hb & _ & Hr).
    destruct Hwhy as [Hwhy|Hwhy].
    + exfalso. rewrite Hpush, Hpass, Hturn in Hwhy.
      exact (opposite_neq Hwhy).
    + eexists. right. left. exists m.
      repeat split; try assumption; try reflexivity.
      * rewrite Hb. exact Hpush.
      * rewrite Hb. exact Hwhy.
      * rewrite Hr, Hwhy. apply andb_false_r.
  - eexists. right. right. exists m, reply.
    rewrite Hpush in *. repeat split; try assumption.
    match goal with
    | |- board (end_detection ?x) = _ =>
        rewrite (proj1 (end_detection_fields x))
    end.
    reflexivity.
Qed.

(** X6. Under rules that pass the turn, a frame whose clicks are inside the
    window and that starts with the human to move, the pending origin a
    square of the board, applies no move, or one move of the human that ends
    the game, or one move of the human and the engine's reply to it; the
    search is called exactly in the last case, on the position after the
    human's move.  The human's move is one the rules find legal, the reply a
    legal move of the position searched. *)
Theorem frame_applies_at_most_two_moves (events : list Event) (s : Session) :
  turn_passes R ->
  Forall click_in_window events ->
  origin_on_board s ->
  board_turn (board s) = player_color ->
  exists s',
    (frame events s = (Ok s', []) /\ board s' = board s)
    \/ (exists m,
          is_legal (board s) m = true
          /\ frame events s = (Ok s', [])
          /\ board s' = push (board s) m
          /\ is_game_over (board s') = true
          /\ running s' = false)
    \/ (exists m reply,
          is_legal (board s) m = true
          /\ In reply (legal_moves (push (board s) m))
          /\ frame events s = (Ok s', [push (board s) m])
          /\ board s' = push (push (board s) m) reply).
Proof. intros Hpass _ _. apply frame_moves. exact Hpass. Qed.

(** X7. Under rules that pass the turn, [main] is never left between frames
    with the engine to move: whenever the loop is still running it is the
    human's turn, because the engine replies in the frame of the human's
    move. *)
Theorem engine_replies_within_frame (frames : list (list Event))
    (s : Session) (searched : list Board) :
  turn_passes R ->
  main frames = (Ok s, searched) ->
  (board_turn (board s) = player_color \/ running s = false)
  /\ phase s <> EngineTurn.
Proof.
  intros Hpass Hmain.
  assert (H : board_turn (board s) = player_color \/ running s = false).
  { eapply (run_invariant
              (fun x => board_turn (board x) = player_color
                        \/ running x = false));
      [| |exact Hmain]; [|left; reflexivity].
    intros events x x' l [Hx|Hx] Hrun Hf; [|congruence].
    destruct (frame_moves events x Hpass Hx)
      as (x2 & [(Hf2 & Hb) | [(m & _ & Hf2 & _ & _ & Hr)
                             | (m & reply & _ & _ & Hf2 & Hb)]]);
      rewrite Hf2 in Hf; inversion Hf; subst.
    - left. rewrite Hb. exact Hx.
    - right. exact Hr.
    - left. rewrite Hb, !Hpass, Hx. destruct player_color; reflexivity. }
  split; [exact H|].
  unfold phase. destruct H as [H|H].
  - rewrite (proj2 (color_eqb_eq _ _) H).
    destruct (negb (running s) || is_game_over (board s));
      [discriminate|]. destruct (selected_square s); discriminate.
  - rewrite H. cbn [negb orb]. discriminate.
Qed.

Lemma phase_awaiting_origin (s : Session) :
  phase s = AwaitingHumanOriginSelection ->
  running s = true
  /\ is_game_over (board s) = false
  /\ board_turn (board s) = player_color
  /\ selected_square s = None.
Proof.
  unfold phase. destruct (running s); cbn [negb orb]; [|discriminate].
  destruct (is_game_over (board s)); [discriminate|].
  destruct (color_eqb (board_turn (board s)) player_color) eqn:Hturn;
    [|discriminate].
  destruct (selected_square s); [discriminate|].
  intros _. repeat split. apply color_eqb_eq. exact Hturn.
Qed.

Lemma frame_click_quiet (s : Session) (x y : Z) :
  running s = true ->
  is_game_over (board s) = false ->
  board_turn (board s) = player_color ->
  board (on_click x y s) = board s ->
  frame [MOUSEBUTTONDOWN x y] s = (Ok (on_click x y s), []).
Proof.
  intros Hrun Hover Hturn Hboard.
  unfold frame, ai_move, end_detection. cbn [handle_events].
  rewrite (proj2 (color_eqb_eq _ _) Hturn), Hboard.
  rewrite (proj2 (color_eqb_eq _ _) Hturn). cbn [negb andb].
  rewrite Hboard, Hover. reflexivity.
Qed.

(** X8. While an origin is awaited, a click inside the window changes
    nothing on the board and calls no search: it records the clicked square
    as the pending origin when that square holds a piece of the human, and
    is ignored on an empty square or a piece of the other side. *)
Theorem origin_click_selects_own_piece (s : Session) (x y : Z) :
  0 <= x < WIDTH -> 0 <= y < HEIGHT ->
  phase s = AwaitingHumanOriginSelection ->
  let selection :=
    match piece_at (board s) (clicked_square x y) with
    | Some p => if color_eqb (color p) player_color
                then Some (clicked_square x y) else None
    | None => None
    end in
  frame [MOUSEBUTTONDOWN x y] s = (Ok (mkSession (board s) true selection), [])
  /\ phase (mkSession (board s) true selection)
     = match selection with
       | Some _ => AwaitingHumanDestinationSelection
       | None => AwaitingHumanOriginSelection
       end.
Proof.
  intros _ _ Hphase.
  destruct (phase_awaiting_origin s Hphase) as (Hrun & Hover & Hturn & Hsel).
  cbv zeta.
  assert (Hclick :
            on_click x y s
            = mkSession (board s) true
                match piece_at (board s) (clicked_square x y) with
                | Some p => if color_eqb (color p) player_color
                            then Some (clicked_square x y) else None
                | None => None
                end).
  { unfold on_click. cbv zeta. rewrite Hsel.
    destruct (piece_at (board s) (clicked_square x y)) as [p|];
      [destruct (color_eqb (color p) player_color)|];
      rewrite <- ?Hrun, <- ?Hsel; try reflexivity;
      destruct s; reflexivity. }
  split.
  - rewrite <- Hclick. apply frame_click_quiet; try assumption.
    rewrite Hclick. reflexivity.
  - unfold phase. cbn [running board selected_square negb orb].
    rewrite Hover, (proj2 (color_eqb_eq _ _) Hturn).
    destruct (piece_at (board s) (clicked_square x y)) as [p|];
      [destruct (color_eqb (color p) player_color)|]; reflexivity.
Qed.

(** X9. Under rules that pass the turn: while a destination is awaited, the
    pending origin a square of the board, a click inside the window whose
    move is legal applies that move and clears the pending origin.  If the
    move ends the game the frame searches nothing and its end detection
    stops the loop: it ends with [running] false, the terminal state;
    otherwise the engine is searched on the position after the move and its
    reply, a legal move there, is applied in the same frame. *)
Theorem legal_destination_committed (s : Session) (origin : Square)
    (x y : Z) :
  turn_passes R ->
  0 <= x < WIDTH -> 0 <= y < HEIGHT ->
  phase s = AwaitingHumanDestinationSelection ->
  selected_square s = Some origin ->
  (origin < 64)%nat ->
  is_legal (board s) (mkMove origin (clicked_square x y) None) = true ->
  let after := push (board s) (mkMove origin (clicked_square x y) None) in
  exists s',
    selected_square s' = None
    /\ ((is_game_over after = true
         /\ frame [MOUSEBUTTONDOWN x y] s = (Ok s', [])
         /\ board s' = after
         /\ running s' = false
         /\ phase s' = Terminal)
        \/ (is_game_over after = false
            /\ exists reply,
                 In reply (legal_moves after)
                 /\ frame [MOUSEBUTTONDOWN x y] s = (Ok s', [after])
                 /\ board s' = push after reply)).
Proof.
  intros Hpass _ _ Hphase Hsel _ Hlegal after.
  destruct (phase_awaiting_destination s Hphase) as (Hrun & _ & Hturn & _).
  assert (Hs1 : handle_events [MOUSEBUTTONDOWN x y] s
                = mkSession after (running s) None).
  { cbn [handle_events]. rewrite Hturn. unfold on_click. cbv zeta.
    rewrite Hsel, Hlegal. reflexivity. }
  apply color_eqb_eq in Hturn.
  assert (Hnot : board_turn after <> player_color).
  { unfold after. rewrite Hpass, Hturn. apply opposite_neq. }
  destruct (frame_cases [MOUSEBUTTONDOWN x y] s)
    as [(Hf & Hwhy) | (reply & _ & Hover & Hin & Hf)];
    rewrite Hs1 in *; cbn [board running selected_square] in *; rewrite Hf.
  - destruct Hwhy as [Hwhy|Hover]; [contradiction|].
    exists (end_detection (mkSession after (running s) None)).
    destruct (end_detection_fields (mkSession after (running s) None))
      as (Hb & Hs & Hr).
    cbn [board running selected_square] in *.
    split; [exact Hs|]. left.
    split; [exact Hover|]. split; [reflexivity|]. split; [exact Hb|].
    split; [rewrite Hr, Hover; apply andb_false_r|].
    unfold phase. rewrite Hr, Hover, andb_false_r. reflexivity.
  - exists (end_detection (mkSession (push after reply) (running s) None)).
    destruct (end_detection_fields
                (mkSession (push after reply) (running s) None))
      as (Hb & Hs & _).
    cbn [board running selected_square] in *.
    split; [exact Hs|]. right.
    split; [exact Hover|]. exists reply.
    split; [exact Hin|]. split; [reflexivity | exact Hb].
Qed.




End SessionExtras.

(** ** Drawing and clicking *)

Lemma in_window_cell (x : Z) :
  0 <= x < 640 -> 0 <= x / 80 < 8 /\ 80 * (x / 80) <= x < 80 * (x / 80) + 80.
Proof.
  intros H. pose proof (Z.div_mod x 80 ltac:(lia)) as Hdm.
  pose proof (Z.mod_pos_bound x 80 ltac:(lia)) as Hm.
  split; [|lia].
  split; [apply Z.div_pos; lia | apply Z.div_lt_upper_bound; lia].
Qed.

Lemma square_coordinates (sq : Square) :
  Z.of_nat sq = 8 * Z.of_nat (square_rank sq) + Z.of_nat (square_file sq)
  /\ 0 <= Z.of_nat (square_file sq) < 8
  /\ 0 <= Z.of_nat (square_rank sq).
Proof.
  unfold square_rank, square_file.
  pose proof (Nat.div_mod_eq sq 8) as Hdm.
  pose proof (Nat.mod_upper_bound sq 8 ltac:(lia)) as Hm.
  lia.
Qed.

Lemma covers_clicked_square (x y : Z) :
  0 <= x < WIDTH ->
  0 <= y < HEIGHT ->
  (clicked_square x y < 64)%nat
  /\ forall sq, covers (square_rect sq) x y = Nat.eqb (clicked_square x y) sq.
Proof.
  change WIDTH with 640. change HEIGHT with 640. intros Hx Hy.
  destruct (in_window_cell Hx) as (Hc & Hcx).
  destruct (in_window_cell Hy) as (Hr & Hry).
  unfold clicked_square. change SQ_SIZE with 80. cbv zeta.
  split; [lia|].
  intros sq. destruct (square_coordinates sq) as (Hsq & Hf & Hrank).
  unfold covers, square_rect. change SQ_SIZE with 80.
  cbn [left top width height].
  destruct (Nat.eqb_spec (Z.to_nat ((7 - y / 80) * 8 + x / 80)) sq) as [E|E].
  - assert (Hfile : Z.of_nat (square_file sq) = x / 80) by lia.
    assert (Hrk : Z.of_nat (square_rank sq) = 7 - y / 80) by lia.
    rewrite Hfile, Hrk.
    apply andb_true_iff; split; [apply andb_true_iff; split;
                                 [apply andb_true_iff; split|]|];
      first [apply Z.leb_le | apply Z.ltb_lt]; lia.
  - apply not_true_is_false. intros H.
    repeat (apply andb_true_iff in H; destruct H as (H & ?)).
    repeat match goal with
           | H : (_ <=? _) = true |- _ => apply Z.leb_le in H
           | H : (_ <? _) = true |- _ => apply Z.ltb_lt in H
           end.
    apply E. lia.
Qed.

(** X11. A click inside the window resolves to a square of the board, and that
    is the one square whose rectangle on the screen contains the pixel: the
    click mapping of lines 151-154 inverts the square-to-pixel mapping of
    lines 102-108 and 178-183. *)
Theorem click_inverts_square_rect (x y : Z) :
  0 <= x < WIDTH ->
  0 <= y < HEIGHT ->
  (clicked_square x y < 64)%nat
  /\ forall sq, covers (square_rect sq) x y = Nat.eqb (clicked_square x y) sq.
Proof. apply covers_clicked_square. Qed.

Lemma drawing_order_squares (sq : Square) :
  In sq drawing_order <-> (sq < 64)%nat.
Proof.
  split.
  - intros H. vm_compute in H.
    repeat (destruct H as [H|H]; [subst sq; lia|]). contradiction.
  - intros H.
    assert (Hall : forallb (fun s => existsb (Nat.eqb s) drawing_order)
                           (seq 0 64) = true) by (vm_compute; reflexivity).
    rewrite forallb_forall in Hall.
    specialize (Hall sq ltac:(apply in_seq; lia)).
    apply existsb_exists in Hall. destruct Hall as (s & Hin & Heq).
    apply Nat.eqb_eq in Heq. subst s. exact Hin.
Qed.

Lemma drawing_order_NoDup : NoDup drawing_order.
Proof.
  vm_compute.
  repeat (constructor;
          [intros H; repeat (destruct H as [H|H]; [discriminate H|]);
           exact H|]).
  constructor.
Qed.

Lemma filter_none {A} (f : A -> bool) (l : list A) :
  (forall s, In s l -> f s = false) -> filter f l = [].
Proof.
  induction l as [|s l IH]; intros H; [reflexivity|]. cbn [filter].
  rewrite (H s (or_introl eq_refl)). apply IH.
  intros u Hu. apply H. right. exact Hu.
Qed.

(** A test that holds of exactly one element of a list without repetition
    picks that element. *)
Lemma filter_only {A} (f : A -> bool) (a : A) :
  forall l, NoDup l -> In a l ->
            (forall s, In s l -> f s = true <-> s = a) ->
            filter f l = [a].
Proof.
  induction l as [|s l IH]; intros Hnd Hin Hf; [contradiction|].
  inversion Hnd as [|? ? Hnotin Hnd']. subst. cbn [filter].
  destruct Hin as [->|Hin].
  - rewrite (proj2 (Hf a (or_introl eq_refl)) eq_refl). f_equal.
    apply filter_none. intros u Hu.
    destruct (f u) eqn:Eu; [|reflexivity].
    exfalso. apply Hnotin.
    rewrite <- (proj1 (Hf u (or_intror Hu)) Eu). exact Hu.
  - destruct (f s) eqn:Es.
    + exfalso. apply Hnotin.
      rewrite (proj1 (Hf s (or_introl eq_refl)) Es). exact Hin.
    + apply IH; [exact Hnd' | exact Hin|].
      intros u Hu. apply Hf. right. exact Hu.
Qed.

Lemma draw_board_squares :
  draw_board
  = map (fun sq =>
           FillRect (if Nat.even (square_file sq + square_rank sq)
                     then DARK else LIGHT)
                    (square_rect sq))
        drawing_order.
Proof. vm_compute. reflexivity. Qed.

(** X12. [draw_board] tiles the window: every pixel of the window lies in
    exactly one of the 64 rectangles, the rectangle of the square a click on
    the pixel resolves to, and that square is painted dark when its file and
    rank indices add up to an even number (so a1 is dark) and light
    otherwise. *)
Theorem draw_board_tiles_window (x y : Z) :
  0 <= x < WIDTH ->
  0 <= y < HEIGHT ->
  length draw_board = 64%nat
  /\ filter (fun d => match d with
                      | FillRect _ rect => covers rect x y
                      | _ => false
                      end) draw_board
     = [FillRect (if Nat.even (square_file (clicked_square x y)
                               + square_rank (clicked_square x y))
                  then DARK else LIGHT)
                 (square_rect (clicked_square x y))].
Proof.
  intros Hx Hy. split; [reflexivity|].
  destruct (covers_clicked_square Hx Hy) as (Hsq & Hcovers).
  rewrite draw_board_squares.
  set (cell := fun sq => FillRect _ (square_rect sq)).
  change (FillRect _ (square_rect (clicked_square x y)))
    with (cell (clicked_square x y)).
  assert (Hmap : forall l,
             filter (fun d => match d with
                              | FillRect _ rect => covers rect x y
                              | _ => false
                              end) (map cell l)
             = map cell (filter (fun sq => covers (square_rect sq) x y) l)).
  { induction l as [|s l IH]; [reflexivity|]. cbn [map filter].
    change (match cell s with
            | FillRect _ rect => covers rect x y
            | _ => false
            end) with (covers (square_rect s) x y).
    destruct (covers (square_rect s) x y); cbn [map]; rewrite IH; reflexivity. }
  rewrite Hmap.
  rewrite (@filter_only _ _ (clicked_square x y)); [reflexivity | | |].
  - exact drawing_order_NoDup.
  - apply drawing_order_squares. exact Hsq.
  - intros s _. rewrite Hcovers. rewrite Nat.eqb_eq. split; congruence.
Qed.

Lemma flat_map_nested {A B C} (g : B -> list C) (h : A -> list B)
    (l : list A) :
  flat_map g (flat_map h l) = flat_map (fun x => flat_map g (h x)) l.
Proof.
  induction l as [|x l IH]; [reflexivity|].
  cbn [flat_map]. rewrite flat_map_app, IH. reflexivity.
Qed.

Lemma draw_pieces_squares (b : Board) :
  draw_pieces b
  = flat_map (fun sq => match piece_at b sq with
                        | Some p => [Blit p (piece_fill p) (square_center sq)]
                        | None => []
                        end)
             drawing_order.
Proof.
  unfold drawing_order. rewrite flat_map_nested. reflexivity.
Qed.

Lemma square_center_covered (sq : Square) :
  (sq < 64)%nat ->
  covers (square_rect sq) (fst (square_center sq)) (snd (square_center sq))
  = true.
Proof.
  intros Hsq. destruct (square_coordinates sq) as (Heq & Hf & Hr).
  unfold covers, square_center, square_rect. change SQ_SIZE with 80.
  cbn [fst snd left top width height]. change (80 / 2) with 40.
  apply andb_true_iff; split; [apply andb_true_iff; split;
                               [apply andb_true_iff; split|]|];
    first [apply Z.leb_le | apply Z.ltb_lt]; lia.
Qed.

Lemma square_center_click (sq : Square) :
  (sq < 64)%nat ->
  clicked_square (fst (square_center sq)) (snd (square_center sq)) = sq.
Proof.
  intros Hsq. destruct (square_coordinates sq) as (Heq & Hf & Hr).
  assert (Hin : 0 <= fst (square_center sq) < WIDTH
                /\ 0 <= snd (square_center sq) < HEIGHT).
  { unfold square_center, square_rect. change SQ_SIZE with 80.
    change WIDTH with 640. change HEIGHT with 640.
    cbn [fst snd left top]. change (80 / 2) with 40. lia. }
  destruct Hin as (Hx & Hy).
  destruct (covers_clicked_square Hx Hy) as (_ & Hcovers).
  apply Nat.eqb_eq. rewrite <- Hcovers. apply square_center_covered, Hsq.
Qed.

Lemma draw_pieces_complete (b : Board) (sq : Square) (p : Piece) :
  (sq < 64)%nat ->
  piece_at b sq = Some p ->
  In (Blit p (piece_fill p) (square_center sq)) (draw_pieces b).
Proof.
  intros Hsq Hp. rewrite draw_pieces_squares. apply in_flat_map. exists sq.
  split; [apply drawing_order_squares; exact Hsq|].
  rewrite Hp. left. reflexivity.
Qed.

(** X13. [draw_pieces] draws the board and nothing else: every drawing is the
    glyph of a piece standing on one of the 64 squares, in the colour of its
    side and centred on its square; every piece on such a square is drawn;
    and a click on the centres of the glyphs, in the order drawn, resolves to
    the occupied squares in drawing order, none of them twice. *)
Theorem draw_pieces_shows_the_board (b : Board) :
  (forall d, In d (draw_pieces b) ->
     exists sq p,
       (sq < 64)%nat /\ piece_at b sq = Some p
       /\ d = Blit p (piece_fill p) (square_center sq))
  /\ (forall sq p,
        (sq < 64)%nat -> piece_at b sq = Some p ->
        In (Blit p (piece_fill p) (square_center sq)) (draw_pieces b))
  /\ map (fun d => match d with
                   | Blit _ _ (x, y) => clicked_square x y
                   | _ => 64%nat
                   end) (draw_pieces b)
     = filter (fun sq => match piece_at b sq with
                         | Some _ => true
                         | None => false
                         end) drawing_order
  /\ NoDup drawing_order.
Proof.
  rewrite draw_pieces_squares. repeat split.
  - intros d Hd. apply in_flat_map in Hd. destruct Hd as (sq & Hsq & Hd).
    apply drawing_order_squares in Hsq.
    destruct (piece_at b sq) as [p|] eqn:Hp; [|contradiction].
    destruct Hd as [<-|[]]. exists sq, p. repeat split; assumption.
  - intros sq p Hsq Hp. rewrite <- draw_pieces_squares.
    apply draw_pieces_complete; assumption.
  - assert (Hall : forall sq, In sq drawing_order -> (sq < 64)%nat)
      by (intros sq; apply drawing_order_squares).
    induction drawing_order as [|sq l IH]; [reflexivity|].
    cbn [flat_map filter].
    destruct (piece_at b sq) as [p|].
    + cbn [app map]. rewrite IH by (intros; apply Hall; right; assumption).
      f_equal.
      pose proof (square_center_click (Hall sq (or_introl eq_refl))) as Hc.
      destruct (square_center sq) as (x, y). exact Hc.
    + cbn [app]. apply IH. intros; apply Hall; right; assumption.
  - exact drawing_order_NoDup.
Qed.

(** X14. [draw_last_move] paints nothing while no move has been made; afterwards
    it paints, of the pixels of the window, exactly those on which a click
    resolves to the origin or the destination of the most recent move. *)
Theorem draw_last_move_marks_last_move (b : Board) (x y : Z) :
  0 <= x < WIDTH ->
  0 <= y < HEIGHT ->
  painted (draw_last_move b) x y
  = match move_stack b with
    | [] => false
    | last :: _ =>
        Nat.eqb (clicked_square x y) (from_square last)
        || Nat.eqb (clicked_square x y) (to_square last)
    end.
Proof.
  intros Hx Hy. destruct (covers_clicked_square Hx Hy) as (_ & Hcovers).
  unfold draw_last_move, painted.
  destruct (move_stack b) as [|last rest]; [reflexivity|].
  cbn [map existsb]. rewrite !Hcovers, orb_false_r. reflexivity.
Qed.

Section DrawnSession.
Context {R : Rules}.

(** X15. While an origin is awaited, a click inside the window on a piece
    of the human makes that square the pending origin, and what the frame
    then draws shows it: the highlight outlines the rectangle of that square,
    which contains the pixel clicked, and the piece's glyph is drawn centred
    inside it. *)
Theorem clicked_piece_is_highlighted (s : Session) (x y : Z) (p : Piece) :
  phase s = AwaitingHumanOriginSelection ->
  0 <= x < WIDTH ->
  0 <= y < HEIGHT ->
  piece_at (board s) (clicked_square x y) = Some p ->
  color p = player_color ->
  let sq := clicked_square x y in
  let s' := mkSession (board s) true (Some sq) in
  frame [MOUSEBUTTONDOWN x y] s = (Ok s', [])
  /\ In (OutlineRect HIGHLIGHT (square_rect sq) 5) (draw s')
  /\ covers (square_rect sq) x y = true
  /\ In (Blit p (piece_fill p) (square_center sq)) (draw s')
  /\ covers (square_rect sq) (fst (square_center sq)) (snd (square_center sq))
     = true.
Proof.
  intros Hphase Hx Hy Hp Hc sq s'.
  destruct (phase_awaiting_origin s Hphase) as (Hrun & Hover & Hturn & Hsel).
  destruct (covers_clicked_square Hx Hy) as (Hsq & Hcovers).
  assert (Hclick : on_click x y s = s').
  { unfold on_click. cbv zeta. rewrite Hsel, Hp, Hc, Hrun. reflexivity. }
  split; [|split; [|split; [|split]]].
  - rewrite <- Hclick. apply frame_click_quiet; try assumption.
    rewrite Hclick. reflexivity.
  - unfold draw. cbn [selected_square].
    apply in_or_app. right. apply in_or_app. right.
    apply in_or_app. left. left. reflexivity.
  - rewrite Hcovers. apply Nat.eqb_refl.
  - unfold draw. cbn [board].
    apply in_or_app. right. apply in_or_app. right.
    apply in_or_app. right. apply draw_pieces_complete; assumption.
  - apply square_center_covered. exact Hsq.
Qed.

End DrawnSession.

(** ** The library's rules: the scenarios *)

#[local] Existing Instance PythonChess.rules.

Lemma move_eqb_eq (m n : Move) : move_eqb m n = true -> m = n.
Proof.
  destruct m as [f t p], n as [f' t' p']. unfold move_eqb.
  cbn [from_square to_square promotion]. intros H.
  apply andb_true_iff in H. destruct H as (H & Hp).
  apply andb_true_iff in H. destruct H as (Hf & Ht).
  apply Nat.eqb_eq in Hf. apply Nat.eqb_eq in Ht. subst.
  destruct p as [[]|], p' as [[]|]; try discriminate; reflexivity.
Qed.

(** C1. The position [queen_hangs] is as the scenario asks: taking the queen
    with the rook is legal, no black piece attacks the rook afterwards, and
    every other legal move leaves the material of both sides as it is.  At
    depth 1 the search does not return the capture: it returns h1h2, the
    first legal move.  The position after each move is evaluated with Black
    to move, so the search prefers what is best for Black: 400 after a quiet
    move against -500 after the capture.  At depth 2 the capture is
    returned. *)
Theorem depth_1_declines_free_queen :
  let b := PythonChess.queen_hangs in
  let capture := mkMove PythonChess.D1 PythonChess.D8 None in
  let quiet := mkMove PythonChess.H1 15%nat None in
  In capture (legal_moves b)
  /\ piece_at b PythonChess.D8 = Some (mkPiece QUEEN BLACK)
  /\ PythonChess.is_attacked_by (state (push b capture)) BLACK PythonChess.D8
     = false
  /\ (forall m, In m (legal_moves b) -> m <> capture ->
        material (push b m) WHITE = material b WHITE
        /\ material (push b m) BLACK = material b BLACK)
  /\ material (push b capture) BLACK = material b BLACK - 900
  /\ evaluate_board (push b quiet) = 400
  /\ evaluate_board (push b capture) = -500
  /\ get_best_move recursion_limit 1 b = (Ok (Some quiet), b)
  /\ get_best_move recursion_limit 2 b = (Ok (Some capture), b).
Proof.
  cbv zeta.
  assert (Hothers :
            forallb (fun m =>
                       move_eqb m (mkMove PythonChess.D1 PythonChess.D8 None)
                       || ((material (push PythonChess.queen_hangs m) WHITE
                            =? material PythonChess.queen_hangs WHITE)
                           && (material (push PythonChess.queen_hangs m) BLACK
                               =? material PythonChess.queen_hangs BLACK)))
                    (legal_moves PythonChess.queen_hangs) = true)
    by (vm_compute; reflexivity).
  rewrite forallb_forall in Hothers.
  repeat match goal with |- _ /\ _ => split end;
    try (vm_compute; reflexivity).
  - vm_compute. tauto.
  - intros m Hin Hm. specialize (Hothers m Hin).
    apply orb_true_iff in Hothers. destruct Hothers as [Hc|Hsame].
    + exfalso. apply Hm, move_eqb_eq, Hc.
    + apply andb_true_iff in Hsame. destruct Hsame as (Hw & Hb).
      apply Z.eqb_eq in Hw. apply Z.eqb_eq in Hb. split; assumption.
Qed.

(** ** The theorems at concrete inputs *)

Lemma depth_2_within_limit : 1 <= 2 <= Z.of_nat recursion_limit.
Proof. vm_compute. split; discriminate. Defined.

Lemma search_restores_position_witness :
  1 <= 2 <= Z.of_nat recursion_limit
  /\ exists best,
       get_best_move recursion_limit 2 initial_board = (Ok best, initial_board).
Proof.
  split; [exact depth_2_within_limit|].
  exact (proj1 (proj2 (proj2 (@search_restores_position
                                PythonChess.rules recursion_limit 2
                                initial_board)))
               depth_2_within_limit).
Defined.

Lemma pruning_preserves_choice_witness :
  1 <= 2 <= Z.of_nat recursion_limit
  /\ get_best_move recursion_limit 2 initial_board
     = get_best_move_exhaustive recursion_limit 2 initial_board.
Proof.
  split; [exact depth_2_within_limit|].
  exact (proj1 (@pruning_preserves_choice PythonChess.rules recursion_limit 2
                                          initial_board depth_2_within_limit)).
Defined.

Lemma get_best_move_first_best_witness :
  (1 <= recursion_limit)%nat
  /\ get_best_move recursion_limit 1 initial_board
     = (Ok (hd_error (legal_moves initial_board)), initial_board).
Proof.
  assert (H : (1 <= recursion_limit)%nat) by (vm_compute; lia).
  split; [exact H|].
  exact (proj1 (proj2 (proj2 (proj2 (@get_best_move_first_best
                                       PythonChess.rules recursion_limit 1
                                       initial_board))
                             eq_refl H))).
Defined.

Lemma no_legal_move_no_best_move_witness :
  legal_moves PythonChess.stalemate = []
  /\ get_best_move recursion_limit 2 PythonChess.stalemate
     = (Ok None, PythonChess.stalemate).
Proof.
  assert (H : legal_moves PythonChess.stalemate = [])
    by (vm_compute; reflexivity).
  split; [exact H|].
  exact (@no_legal_move_no_best_move PythonChess.rules recursion_limit 2
                                     PythonChess.stalemate H).
Defined.

Lemma best_move_is_legal_witness :
  get_best_move recursion_limit 1 initial_board
  = (Ok (Some (mkMove 6 23 None)%nat), initial_board)
  /\ In (mkMove 6 23 None)%nat (legal_moves initial_board).
Proof.
  assert (H : get_best_move recursion_limit 1 initial_board
              = (Ok (Some (mkMove 6 23 None)%nat), initial_board))
    by (vm_compute; reflexivity).
  split; [exact H|].
  exact (@best_move_is_legal PythonChess.rules recursion_limit 1
                             initial_board initial_board _ H).
Defined.

(** Pixels inside the window: the top left one, on a8, and pixels on e5, e4
    and e2. *)
Lemma pixel_in_window : 0 <= 0 < WIDTH /\ 0 <= 0 < HEIGHT.
Proof. change WIDTH with 640. change HEIGHT with 640. lia. Defined.

Lemma pixel_on_e5 : 0 <= 320 < WIDTH /\ 0 <= 240 < HEIGHT.
Proof. change WIDTH with 640. change HEIGHT with 640. lia. Defined.

Lemma pixel_on_e4 : 0 <= 320 < WIDTH /\ 0 <= 320 < HEIGHT.
Proof. change WIDTH with 640. change HEIGHT with 640. lia. Defined.

Lemma pixel_on_e2 : 0 <= 320 < WIDTH /\ 0 <= 480 < HEIGHT.
Proof. change WIDTH with 640. change HEIGHT with 640. lia. Defined.

Lemma e2_on_board : (12 < 64)%nat.
Proof. lia. Defined.

Lemma a7_on_board : origin_on_board a7_selected.
Proof. intros origin H. injection H as <-. lia. Defined.

Lemma e2_selected_on_board : origin_on_board e2_selected.
Proof. intros origin H. injection H as <-. lia. Defined.

Lemma nothing_selected_on_board (b : Board) (r : bool) :
  origin_on_board (mkSession b r None).
Proof. intros origin H. discriminate H. Defined.

(** The human has picked e2 and clicks on e5. *)
Lemma illegal_destination_discarded_witness :
  (0 <= 320 < WIDTH /\ 0 <= 240 < HEIGHT)
  /\ phase e2_selected = AwaitingHumanDestinationSelection
  /\ is_legal initial_board (mkMove 12%nat (clicked_square 320 240) None)
     = false
  /\ frame [MOUSEBUTTONDOWN 320 240] e2_selected
     = (Ok (mkSession initial_board true None), []).
Proof.
  assert (Hphase : phase e2_selected = AwaitingHumanDestinationSelection)
    by (vm_compute; reflexivity).
  assert (Hillegal :
            is_legal (board e2_selected)
                     (mkMove 12%nat (clicked_square 320 240) None) = false)
    by (vm_compute; reflexivity).
  split; [exact pixel_on_e5|].
  split; [exact Hphase|]. split; [exact Hillegal|].
  exact (proj1 (proj2 (@illegal_destination_discarded
                         PythonChess.rules e2_selected 12%nat 320 240
                         (proj1 pixel_on_e5) (proj2 pixel_on_e5)
                         Hphase eq_refl e2_on_board Hillegal))).
Defined.

(** Black, the engine's side, is to move and stalemated; the loop was
    running. *)
Lemma search_skipped_on_terminal_witness :
  running stalemated = true
  /\ is_game_over PythonChess.stalemate = true
  /\ exists s', frame [] stalemated = (Ok s', [])
                /\ board s' = PythonChess.stalemate
                /\ selected_square s' = None
                /\ running s' = false
                /\ phase s' = Terminal.
Proof.
  assert (Hover : is_game_over (board (handle_events [] stalemated)) = true)
    by (vm_compute; reflexivity).
  split; [reflexivity|]. split; [exact Hover|].
  exact (proj2 (proj2 (@search_skipped_on_terminal PythonChess.rules
                                                   stalemated []))
               (Forall_nil click_in_window)
               (@nothing_selected_on_board PythonChess.stalemate true)
               eq_refl Hover).
Defined.

(** The human has picked the pawn on a7 and clicks on a8: the legal moves
    from a7 to a8 are the four promotions. *)
Lemma promotion_click_commits_nothing_witness :
  filter (fun m => Nat.eqb (from_square m) 48%nat)
         (legal_moves PythonChess.pawn_on_a7)
  = map (fun pt => mkMove 48%nat 56%nat (Some pt)) [QUEEN; ROOK; BISHOP; KNIGHT]
  /\ (0 <= 0 < WIDTH /\ 0 <= 0 < HEIGHT)
  /\ on_click 0 0 a7_selected = mkSession PythonChess.pawn_on_a7 true None
  /\ frame [MOUSEBUTTONDOWN 0 0] a7_selected
     = (Ok (mkSession PythonChess.pawn_on_a7 true None), []).
Proof.
  assert (Hphase : phase a7_selected = AwaitingHumanDestinationSelection)
    by (vm_compute; reflexivity).
  assert (Hpawn : piece_at (board a7_selected) 48%nat
                  = Some (mkPiece PAWN player_color))
    by (vm_compute; reflexivity).
  assert (Hpromotion :
            forall m, is_legal (board a7_selected) m = true ->
                      from_square m = 48%nat ->
                      to_square m = clicked_square 0 0 ->
                      promotion m <> None).
  { intros [f t p] Hlegal Hf Ht. cbn [from_square to_square promotion] in *.
    subst f t. destruct p as [pt|]; [discriminate|].
    vm_compute in Hlegal. discriminate Hlegal. }
  split; [vm_compute; reflexivity|].
  split; [exact pixel_in_window|].
  exact (proj2 (@promotion_click_commits_nothing
                  PythonChess.rules a7_selected 0 0
                  (proj1 pixel_in_window) (proj2 pixel_in_window)
                  a7_on_board)
               48%nat Hphase eq_refl Hpawn Hpromotion).
Defined.

(** ** The further properties at concrete inputs *)

Lemma minimax_respects_window_witness :
  0 <= 1 < Z.of_nat recursion_limit
  /\ lt (Int (-50)) (Int 50) = true
  /\ exists r,
       minimax recursion_limit 1 (Int (-50)) (Int 50) true initial_board
       = (Ok r, initial_board).
Proof.
  assert (Hd : 0 <= 1 < Z.of_nat recursion_limit)
    by (vm_compute; split; [discriminate | reflexivity]).
  split; [exact Hd|]. split; [reflexivity|].
  destruct (@minimax_respects_window PythonChess.rules recursion_limit 1
              (Int (-50)) (Int 50) true initial_board Hd eq_refl)
    as (r & Hr & _).
  exists r. exact Hr.
Defined.

(** With fuel for one call only, a search of depth 5 runs out of it in the
    first child. *)
Lemma search_raises_only_recursion_error_witness :
  minimax 1 5 NegInf PosInf true initial_board
  = (Raise RecursionError, push initial_board (mkMove 6 23 None)%nat)
  /\ RecursionError = RecursionError.
Proof.
  assert (H : minimax 1 5 NegInf PosInf true initial_board
              = (Raise RecursionError,
                 push initial_board (mkMove 6 23 None)%nat))
    by (vm_compute; reflexivity).
  split; [exact H|].
  exact (proj1 (@search_raises_only_recursion_error
                  PythonChess.rules 1 5 initial_board _ RecursionError)
               NegInf PosInf true H).
Defined.

Lemma depth_1_least_advantage_witness :
  get_best_move recursion_limit 1 PythonChess.queen_hangs
  = (Ok (Some (mkMove 7 15 None)%nat), PythonChess.queen_hangs)
  /\ forall m',
       In m' (legal_moves PythonChess.queen_hangs) ->
       advantage (push PythonChess.queen_hangs (mkMove 7 15 None)%nat) WHITE
       <= advantage (push PythonChess.queen_hangs m') WHITE.
Proof.
  assert (H : get_best_move recursion_limit 1 PythonChess.queen_hangs
              = (Ok (Some (mkMove 7 15 None)%nat), PythonChess.queen_hangs))
    by (vm_compute; reflexivity).
  assert (Hfuel : (1 <= recursion_limit)%nat) by (vm_compute; lia).
  split; [exact H|].
  exact (@depth_1_least_advantage PythonChess.rules recursion_limit
           PythonChess.queen_hangs PythonChess.queen_hangs _
           (fun x _ => python_chess_turn_passes PythonChess.queen_hangs x)
           Hfuel H).
Defined.

(** One frame in which the human clicks on e2. *)
Lemma main_after_click_on_e2 :
  main [[MOUSEBUTTONDOWN 320 480]] = (Ok e2_selected, []).
Proof. vm_compute. reflexivity. Defined.

(** One frame in which the human clicks on e2, then one with QUIT. *)
Lemma main_returns_and_stops_witness :
  Forall (Forall click_in_window) [[MOUSEBUTTONDOWN 320 480]; [QUIT]]
  /\ exists s searched,
       main [[MOUSEBUTTONDOWN 320 480]; [QUIT]] = (Ok s, searched).
Proof.
  assert (Hclicks : Forall (Forall click_in_window)
                           [[MOUSEBUTTONDOWN 320 480]; [QUIT]]).
  { repeat constructor; change WIDTH with 640; change HEIGHT with 640; lia. }
  split; [exact Hclicks|].
  destruct (@main_returns_and_stops PythonChess.rules
              [[MOUSEBUTTONDOWN 320 480]; [QUIT]] Hclicks)
    as (s & searched & Hmain & _).
  exists s, searched. exact Hmain.
Defined.

Lemma selected_square_holds_own_piece_witness :
  main [[MOUSEBUTTONDOWN 320 480]] = (Ok e2_selected, [])
  /\ selected_square e2_selected = Some 12%nat
  /\ exists p, piece_at initial_board 12%nat = Some p /\ color p = player_color.
Proof.
  split; [exact main_after_click_on_e2|]. split; [reflexivity|].
  exact (proj2 (@selected_square_holds_own_piece
                  PythonChess.rules _ _ _ 12%nat
                  main_after_click_on_e2 eq_refl)).
Defined.

Lemma frame_applies_at_most_two_moves_witness :
  Forall click_in_window [MOUSEBUTTONDOWN 320 320]
  /\ board_turn (board e2_selected) = player_color
  /\ exists s',
       (frame [MOUSEBUTTONDOWN 320 320] e2_selected = (Ok s', [])
        /\ board s' = initial_board)
       \/ (exists m,
             is_legal initial_board m = true
             /\ frame [MOUSEBUTTONDOWN 320 320] e2_selected = (Ok s', [])
             /\ board s' = push initial_board m
             /\ is_game_over (board s') = true
             /\ running s' = false)
       \/ (exists m reply,
             is_legal initial_board m = true
             /\ In reply (legal_moves (push initial_board m))
             /\ frame [MOUSEBUTTONDOWN 320 320] e2_selected
                = (Ok s', [push initial_board m])
             /\ board s' = push (push initial_board m) reply).
Proof.
  assert (Hclicks : Forall click_in_window [MOUSEBUTTONDOWN 320 320])
    by (constructor; [exact pixel_on_e4 | constructor]).
  split; [exact Hclicks|]. split; [reflexivity|].
  exact (@frame_applies_at_most_two_moves
           PythonChess.rules [MOUSEBUTTONDOWN 320 320] e2_selected
           python_chess_turn_passes Hclicks e2_selected_on_board eq_refl).
Defined.

Lemma engine_replies_within_frame_witness :
  main [[MOUSEBUTTONDOWN 320 480]] = (Ok e2_selected, [])
  /\ phase e2_selected <> EngineTurn.
Proof.
  split; [exact main_after_click_on_e2|].
  exact (proj2 (@engine_replies_within_frame
                  PythonChess.rules _ _ _ python_chess_turn_passes
                  main_after_click_on_e2)).
Defined.

Lemma origin_click_selects_own_piece_witness :
  (0 <= 320 < WIDTH /\ 0 <= 480 < HEIGHT)
  /\ phase (mkSession initial_board true None) = AwaitingHumanOriginSelection
  /\ frame [MOUSEBUTTONDOWN 320 480] (mkSession initial_board true None)
     = (Ok e2_selected, []).
Proof.
  assert (Hphase : phase (mkSession initial_board true None)
                   = AwaitingHumanOriginSelection)
    by (vm_compute; reflexivity).
  split; [exact pixel_on_e2|]. split; [exact Hphase|].
  exact (proj1 (@origin_click_selects_own_piece
                  PythonChess.rules (mkSession initial_board true None)
                  320 480 (proj1 pixel_on_e2) (proj2 pixel_on_e2) Hphase)).
Defined.

(** The human has picked e2 and clicks on e4. *)
Lemma legal_destination_committed_witness :
  (0 <= 320 < WIDTH /\ 0 <= 320 < HEIGHT)
  /\ phase e2_selected = AwaitingHumanDestinationSelection
  /\ is_legal initial_board (mkMove 12%nat (clicked_square 320 320) None)
     = true
  /\ exists s',
       selected_square s' = None
       /\ exists searched,
            frame [MOUSEBUTTONDOWN 320 320] e2_selected = (Ok s', searched).
Proof.
  assert (Hphase : phase e2_selected = AwaitingHumanDestinationSelection)
    by (vm_compute; reflexivity).
  assert (Hlegal : is_legal (board e2_selected)
                            (mkMove 12%nat (clicked_square 320 320) None)
                   = true)
    by (vm_compute; reflexivity).
  split; [exact pixel_on_e4|].
  split; [exact Hphase|]. split; [exact Hlegal|].
  destruct (@legal_destination_committed
              PythonChess.rules e2_selected 12%nat 320 320
              python_chess_turn_passes
              (proj1 pixel_on_e4) (proj2 pixel_on_e4)
              Hphase eq_refl e2_on_board Hlegal)
    as (s' & Hsel & [(_ & Hf & _) | (_ & reply & _ & Hf & _)]);
    exists s'; (split; [exact Hsel|]); eexists; exact Hf.
Defined.

(** The top left pixel belongs to a8. *)
Lemma click_inverts_square_rect_witness :
  0 <= 0 < WIDTH /\ 0 <= 0 < HEIGHT
  /\ covers (square_rect 56%nat) 0 0 = Nat.eqb (clicked_square 0 0) 56%nat.
Proof.
  split; [exact (proj1 pixel_in_window)|].
  split; [exact (proj2 pixel_in_window)|].
  exact (proj2 (click_inverts_square_rect (proj1 pixel_in_window)
                                          (proj2 pixel_in_window))
               56%nat).
Defined.

Lemma draw_board_tiles_window_witness :
  0 <= 0 < WIDTH /\ 0 <= 0 < HEIGHT
  /\ length draw_board = 64%nat.
Proof.
  split; [exact (proj1 pixel_in_window)|].
  split; [exact (proj2 pixel_in_window)|].
  exact (proj1 (draw_board_tiles_window (proj1 pixel_in_window)
                                        (proj2 pixel_in_window))).
Defined.

(** After e2e4 the pixel (320, 320), on e4, is painted. *)
Lemma draw_last_move_marks_last_move_witness :
  0 <= 320 < WIDTH /\ 0 <= 320 < HEIGHT
  /\ painted (draw_last_move (push initial_board (mkMove 12 28 None)%nat))
             320 320
     = true.
Proof.
  split; [exact (proj1 pixel_on_e4)|].
  split; [exact (proj2 pixel_on_e4)|].
  exact (@draw_last_move_marks_last_move
           (push initial_board (mkMove 12 28 None)%nat) 320 320
           (proj1 pixel_on_e4) (proj2 pixel_on_e4)).
Defined.

(** The human clicks on the pawn on e2. *)
Lemma clicked_piece_is_highlighted_witness :
  phase (mkSession initial_board true None) = AwaitingHumanOriginSelection
  /\ 0 <= 320 < WIDTH /\ 0 <= 480 < HEIGHT
  /\ piece_at initial_board (clicked_square 320 480)
     = Some (mkPiece PAWN WHITE)
  /\ In (OutlineRect HIGHLIGHT (square_rect 12%nat) 5) (draw e2_selected).
Proof.
  assert (Hphase : phase (mkSession initial_board true None)
                   = AwaitingHumanOriginSelection)
    by (vm_compute; reflexivity).
  assert (Hx : 0 <= 320 < WIDTH) by (change WIDTH with 640; lia).
  assert (Hy : 0 <= 480 < HEIGHT) by (change HEIGHT with 640; lia).
  split; [exact Hphase|]. split; [exact Hx|]. split; [exact Hy|].
  split; [reflexivity|].
  exact (proj1 (proj2 (@clicked_piece_is_highlighted
                         PythonChess.rules
                         (mkSession initial_board true None) 320 480
                         (mkPiece PAWN WHITE)
                         Hphase Hx Hy eq_refl eq_refl))).
Defined.
